(** * Shallow-restore placeholders of kopia (fs/localfs/shallow_fs.go)

    A shallow embedding of the placeholder codec: the path computation
    [placeholderPath], the writer [WriteShallowPlaceholder], the reader
    [ReadShallowPlaceholder] with its helper [dirEntryFromPlaceholder], and
    the placeholder-backed entries [shallowFilesystemFile] and
    [shallowFilesystemDirectory].

    The Go code talks to the operating system and to encoding/json.  Both are
    modelled here explicitly:

    - the file system is a finite map from resolved paths to nodes (regular
      files and directories; symbolic links do not occur in a state, so Stat
      and Lstat agree), and every system call resolves its path string
      component by component the way the kernel does;
    - the JSON stream encoder and decoder are functions on strings
      ([json_Encode], [json_Decode]).

    Functions that change the file system take the state and return the new
    state next to Go's (value, error) pair. *)

From Stdlib Require Import String Ascii List ZArith NArith Lia Bool.
From Stdlib Require Import DecimalString DecimalN DecimalFacts.
From stdpp Require Import gmap strings.
Import ListNotations.
Open Scope string_scope.

(** * Entry types, errors and results *)

(** Modelled from the spec: snapshot.EntryType is declared in package
    snapshot, outside the files verified here.  Section 3 of the
    specification names File, Directory and Symlink; [EntryTypeUnknown]
    stands for the "other file types" of [placeholderPath]'s default
    branch. *)
Inductive EntryType :=
| EntryTypeUnknown
| EntryTypeFile
| EntryTypeDirectory
| EntryTypeSymlink.

(** Go's errors here are messages; there is one constructor per message of
    the source.  In the words of the specification's taxonomy:
    - [ErrUnsupportedEntryType]: "unsupported entry type: %v";
    - [ErrCorrupt]: "%q, %q exist: shallowrestore tree is corrupt probably
      because a previous restore into a shallow tree was interrupted";
    - [ErrNotFound]: "didn't find original or placeholder for %q";
    - [ErrNotSupported]: "<method> not supported";
    - [ErrMkdirAll], [ErrWriteFile], [ErrReadFile], [ErrJSONDecode]: the
      errors of os.MkdirAll, atomic.WriteFile, ioutil.ReadFile and of the
      JSON decoder;
    - [ErrWrap]: errors.Wrap and errors.Wrapf around a cause. *)
Inductive error :=
| ErrMkdirAll (path : string)
| ErrWriteFile (path : string)
| ErrReadFile (path : string)
| ErrJSONDecode
| ErrUnsupportedEntryType (et : EntryType)
| ErrCorrupt (path php : string)
| ErrNotFound (path : string)
| ErrNotSupported (op : string)
| ErrWrap (cause : error) (msg : string).

Inductive result (A : Type) :=
| Ok (a : A)
| Err (e : error).
Arguments Ok {A} a.
Arguments Err {A} e.

(** * Path strings *)

Definition Separator : ascii := "/"%char.

(** Modelled from the spec: the constant ShallowEntrySuffix is declared
    elsewhere in package localfs, outside the files verified here.  The
    specification calls it "a fixed placeholder suffix"; its value is the one
    in the header comment of shallow_fs.go ("a placeholder for a file f1 is
    f1.kopia-entry"). *)
Definition ShallowEntrySuffix : string := ".kopia-entry".

(** strings.Split(s, "/"). *)
Fixpoint split_sep (s : string) : list string :=
  match s with
  | EmptyString => [""]
  | String c r =>
      if Ascii.eqb c Separator then "" :: split_sep r
      else match split_sep r with
           | h :: t => String c h :: t
           | [] => [String c ""]
           end
  end.

(** strings.Join(elems, "/"). *)
Fixpoint join_sep (elems : list string) : string :=
  match elems with
  | [] => ""
  | [e] => e
  | e :: rest => e +:+ String Separator (join_sep rest)
  end.

Definition is_empty_or_dot (c : string) : bool :=
  String.eqb c "" || String.eqb c ".".

(** The element loop of filepath.Clean: [out] holds the elements kept so
    far, innermost first.  A ".." removes the element before it when there
    is one that is not itself a kept ".."; on a path that is not rooted a
    ".." that cannot backtrack is kept; on a rooted path it is dropped. *)
Fixpoint clean_elems (rooted : bool) (out : list string) (elems : list string)
  : list string :=
  match elems with
  | [] => out
  | c :: rest =>
      if is_empty_or_dot c then clean_elems rooted out rest
      else if String.eqb c ".." then
        match out with
        | top :: out' =>
            if String.eqb top ".." then clean_elems rooted (".." :: out) rest
            else clean_elems rooted out' rest
        | [] =>
            if rooted then clean_elems rooted out rest
            else clean_elems rooted [".."] rest
        end
      else clean_elems rooted (c :: out) rest
  end.

Definition is_rooted (path : string) : bool :=
  match path with
  | String c _ => Ascii.eqb c Separator
  | EmptyString => false
  end.

(** filepath.Clean on a Unix system (no volume names). *)
Definition filepath_Clean (path : string) : string :=
  if String.eqb path "" then "."
  else
    let rooted := is_rooted path in
    let out := join_sep (rev (clean_elems rooted [] (split_sep path))) in
    if rooted then String Separator out
    else if String.eqb out "" then "." else out.

(** filepath.Join(a, b): empty leading elements are ignored, the rest is
    joined with the separator and cleaned. *)
Definition filepath_Join (a b : string) : string :=
  if negb (String.eqb a "") then filepath_Clean (a +:+ String Separator b)
  else if negb (String.eqb b "") then filepath_Clean b
  else "".

(** * The file system *)

Inductive node :=
| NFile (content : string)
| NDir.

(** A state maps a resolved path (its elements, innermost first) to the node
    there.  The root, [[]], is a directory in every state; it is also the
    working directory of relative paths. *)
Abbreviation fsstate := (gmap (list string) node).

Definition node_at (fs : fsstate) (k : list string) : option node :=
  match k with
  | [] => Some NDir
  | _ => fs !! k
  end.

Definition is_dir (fs : fsstate) (k : list string) : bool :=
  match node_at fs k with
  | Some NDir => true
  | _ => false
  end.

(** Path resolution.  Every element, also an empty one or ".", is looked up
    in a directory; ".." leads to the parent (and from the root to the
    root). *)
Fixpoint walk (fs : fsstate) (cur : list string) (elems : list string)
  : option (list string) :=
  match elems with
  | [] => Some cur
  | c :: rest =>
      if is_dir fs cur then
        if is_empty_or_dot c then walk fs cur rest
        else if String.eqb c ".." then walk fs (tail cur) rest
        else walk fs (c :: cur) rest
      else None
  end.

(** The empty path names nothing (ENOENT). *)
Definition namei (fs : fsstate) (path : string) : option (list string) :=
  if String.eqb path "" then None else walk fs [] (split_sep path).

Record FileInfo := { IsDir : bool }.

Definition info_of (n : node) : FileInfo :=
  match n with
  | NDir => {| IsDir := true |}
  | NFile _ => {| IsDir := false |}
  end.

(** os.Lstat: [None] stands for a non-nil error. *)
Definition os_Lstat (fs : fsstate) (path : string) : option FileInfo :=
  match namei fs path with
  | Some k => option_map info_of (node_at fs k)
  | None => None
  end.

(** ioutil.ReadFile: [None] stands for a non-nil error (no such file, or
    the path is a directory). *)
Definition ioutil_ReadFile (fs : fsstate) (path : string) : option string :=
  match namei fs path with
  | Some k =>
      match node_at fs k with
      | Some (NFile c) => Some c
      | _ => None
      end
  | None => None
  end.

(** atomic.WriteFile: the data goes to a temporary file in the target's
    directory, which is then renamed onto the target.  Seen from the code
    that calls it, the target's directory must exist, the target must not be
    a directory, and on success the target is a regular file holding the
    data; on failure the temporary file is removed again. *)
Definition atomic_WriteFile (fs : fsstate) (path : string) (data : string)
  : option fsstate :=
  match namei fs path with
  | Some k =>
      match node_at fs k with
      | Some NDir => None
      | _ => Some (<[k := NFile data]> fs)
      end
  | None => None
  end.

(** os.MkdirAll: every missing directory along the path is created; an
    element that exists and is not a directory is an error, and what was
    created before it stays. *)
Fixpoint mkdir_walk (fs : fsstate) (cur : list string) (elems : list string)
  : fsstate * bool :=
  match elems with
  | [] => (fs, true)
  | c :: rest =>
      if is_empty_or_dot c then mkdir_walk fs cur rest
      else if String.eqb c ".." then mkdir_walk fs (tail cur) rest
      else
        match fs !! (c :: cur) with
        | Some NDir => mkdir_walk fs (c :: cur) rest
        | Some (NFile _) => (fs, false)
        | None => mkdir_walk (<[c :: cur := NDir]> fs) (c :: cur) rest
        end
  end.

Definition os_MkdirAll (fs : fsstate) (path : string) : fsstate * bool :=
  if String.eqb path "" then (fs, false) else mkdir_walk fs [] (split_sep path).

(** * The directory entry and its JSON rendering *)

(** Modelled from the spec: snapshot.DirEntry is declared in package
    snapshot, outside the files verified here.  The fields are those of
    section 3 of the specification: name, type, object identifier,
    permission bits, size and modification time (nanoseconds since the
    epoch).  The field Type is spelled [Type_], Type being a keyword.
    Strings are byte strings, as Go's are: nothing makes a name or an object
    identifier valid UTF-8.  The numeric fields are unbounded here. *)
Record DirEntry := {
  Name : string;
  Type_ : EntryType;
  Permissions : N;
  FileSize : Z;
  ModTime : Z;
  ObjectID : string
}.

Definition dquote : ascii := "034"%char.
Definition backslash : ascii := "\"%char.
Definition LF : ascii := "010"%char.
Definition CR : ascii := "013"%char.
Definition TAB : ascii := "009"%char.

Definition hex_digit (n : N) : ascii :=
  match n with
  | 0%N => "0" | 1%N => "1" | 2%N => "2" | 3%N => "3"
  | 4%N => "4" | 5%N => "5" | 6%N => "6" | 7%N => "7"
  | 8%N => "8" | 9%N => "9" | 10%N => "a" | 11%N => "b"
  | 12%N => "c" | 13%N => "d" | 14%N => "e" | _ => "f"
  end%char.

Definition hex_value (c : ascii) : option N :=
  let n := N_of_ascii c in
  if ((48 <=? n) && (n <=? 57))%N then Some (n - 48)%N
  else if ((97 <=? n) && (n <=? 102))%N then Some (n - 87)%N
  else if ((65 <=? n) && (n <=? 70))%N then Some (n - 55)%N
  else None.

(** ** UTF-8

    Package encoding/json looks at a string rune by rune, with
    utf8.DecodeRuneInString.  The well-formed sequences are those of the
    tables [first] and [acceptRanges] of package utf8: a byte below 0x80 by
    itself, or a lead byte 0xC2..0xF4 followed by one, two or three
    continuation bytes, the first of them in the range its lead byte
    allows. *)

Definition byte_in (lo hi : N) (c : ascii) : bool :=
  ((lo <=? N_of_ascii c) && (N_of_ascii c <=? hi))%N.

(** Two, three and four bytes that make one rune. *)
Definition seq2 (b0 b1 : ascii) : bool :=
  byte_in 194 223 b0 && byte_in 128 191 b1.

Definition seq3 (b0 b1 b2 : ascii) : bool :=
  (byte_in 224 224 b0 && byte_in 160 191 b1 ||
   byte_in 225 236 b0 && byte_in 128 191 b1 ||
   byte_in 237 237 b0 && byte_in 128 159 b1 ||
   byte_in 238 239 b0 && byte_in 128 191 b1) &&
  byte_in 128 191 b2.

Definition seq4 (b0 b1 b2 b3 : ascii) : bool :=
  (byte_in 240 240 b0 && byte_in 144 191 b1 ||
   byte_in 241 243 b0 && byte_in 128 191 b1 ||
   byte_in 244 244 b0 && byte_in 128 143 b1) &&
  byte_in 128 191 b2 && byte_in 128 191 b3.

(** A string taken rune by rune, from its end: [one] for a byte below 0x80,
    [seq] for a well-formed sequence of two to four bytes, [bad] for a byte
    that starts no well-formed sequence (utf8.RuneError of width 1, after
    which the scan goes on at the next byte). *)
Fixpoint fold_runes {A : Type} (one : ascii -> A -> A) (seq : string -> A -> A)
    (bad : A -> A) (nil : A) (s : string) : A :=
  match s with
  | EmptyString => nil
  | String b0 r0 =>
      if (N_of_ascii b0 <? 128)%N then one b0 (fold_runes one seq bad nil r0)
      else
        let invalid (_ : unit) := bad (fold_runes one seq bad nil r0) in
        match r0 with
        | String b1 r1 =>
            if seq2 b0 b1
            then seq (String b0 (String b1 "")) (fold_runes one seq bad nil r1)
            else
              match r1 with
              | String b2 r2 =>
                  if seq3 b0 b1 b2
                  then seq (String b0 (String b1 (String b2 "")))
                           (fold_runes one seq bad nil r2)
                  else
                    match r2 with
                    | String b3 r3 =>
                        if seq4 b0 b1 b2 b3
                        then seq (String b0 (String b1 (String b2 (String b3 ""))))
                                 (fold_runes one seq bad nil r3)
                        else invalid tt
                    | EmptyString => invalid tt
                    end
              | EmptyString => invalid tt
              end
        | EmptyString => invalid tt
        end
  end.

(** U+FFFD, U+2028 and U+2029 in UTF-8. *)
Definition replacement : string :=
  String "239" (String "191" (String "189" "")).
Definition line_separator : string :=
  String "226" (String "128" (String "168" "")).
Definition paragraph_separator : string :=
  String "226" (String "128" (String "169" "")).

(** A string with every byte that is in no well-formed sequence replaced by
    U+FFFD: what a Go string becomes on its way through JSON. *)
Definition utf8_coerce (s : string) : string :=
  fold_runes String String.append (String.append replacement) "" s.

(** utf8.ValidString. *)
Definition utf8_ValidString (s : string) : bool :=
  fold_runes (fun _ ok => ok) (fun _ ok => ok) (fun _ => false) true s.

(** utf8.EncodeRune: a surrogate or a value above U+10FFFF is written as
    U+FFFD. *)
Definition utf8_EncodeRune (r : N) : string :=
  let byte (n : N) := ascii_of_N n in
  let cont (n : N) := byte (N.lor 128 (N.land n 63)) in
  if (r <? 128)%N then String (byte r) ""
  else if (r <? 2048)%N then
    String (byte (N.lor 192 (N.shiftr r 6))) (String (cont r) "")
  else if ((55296 <=? r) && (r <=? 57343) || (1114111 <? r))%N then replacement
  else if (r <? 65536)%N then
    String (byte (N.lor 224 (N.shiftr r 12)))
      (String (cont (N.shiftr r 6)) (String (cont r) ""))
  else
    String (byte (N.lor 240 (N.shiftr r 18)))
      (String (cont (N.shiftr r 12))
        (String (cont (N.shiftr r 6)) (String (cont r) ""))).

(** ** Encoding *)

(** The bytes the encoder writes as \u00XX: control characters and, as the
    stream encoder escapes HTML, the characters <, > and &. *)
Definition needs_u_escape (c : ascii) : bool :=
  let n := N_of_ascii c in
  ((n <? 32) || (n =? 60) || (n =? 62) || (n =? 38))%N.

(** A byte below 0x80.  (Bytes 8 and 12 are written \b and \f, as Go does
    from release 1.22 on; before, they were written \u0008 and \u000c,
    which read back alike.) *)
Definition escape_char (c : ascii) : string :=
  if Ascii.eqb c dquote then String backslash (String dquote "")
  else if Ascii.eqb c backslash then String backslash (String backslash "")
  else if Ascii.eqb c "008" then String backslash "b"
  else if Ascii.eqb c "012" then String backslash "f"
  else if Ascii.eqb c LF then String backslash "n"
  else if Ascii.eqb c CR then String backslash "r"
  else if Ascii.eqb c TAB then String backslash "t"
  else if needs_u_escape c then
    String backslash
      (String "u" (String "0" (String "0"
        (String (hex_digit (N_of_ascii c / 16))
          (String (hex_digit (N_of_ascii c mod 16)) "")))))
  else String c "".

(** A well-formed sequence goes out as it is, but for U+2028 and U+2029,
    which the encoder always escapes. *)
Definition escape_seq (bs : string) : string :=
  if String.eqb bs line_separator then String backslash "u2028"
  else if String.eqb bs paragraph_separator then String backslash "u2029"
  else bs.

(** The loop of the encoder over a string: a byte below 0x80 by
    [escape_char], a well-formed sequence by [escape_seq], and \ufffd for
    every byte that starts no well-formed sequence. *)
Definition escape (s : string) : string :=
  fold_runes (fun c out => escape_char c +:+ out)
             (fun bs out => escape_seq bs +:+ out)
             (fun out => String backslash "ufffd" +:+ out) "" s.

(** A JSON string literal. *)
Definition json_quote (s : string) : string :=
  String dquote (escape s +:+ String dquote "").

Definition json_N (n : N) : string := NilEmpty.string_of_uint (N.to_uint n).

Definition json_Z (z : Z) : string :=
  if (z <? 0)%Z then String "-" (json_N (Z.abs_N z)) else json_N (Z.to_N z).

Definition type_code (et : EntryType) : string :=
  match et with
  | EntryTypeUnknown => "u"
  | EntryTypeFile => "f"
  | EntryTypeDirectory => "d"
  | EntryTypeSymlink => "s"
  end.

Definition key (name : string) : string :=
  String dquote (name +:+ String dquote ":").

(** json.Marshal of a DirEntry: one object in compact form. *)
Definition json_Marshal (de : DirEntry) : string :=
  "{" +:+ key "name" +:+ json_quote (Name de) +:+
  "," +:+ key "type" +:+ json_quote (type_code (Type_ de)) +:+
  "," +:+ key "mode" +:+ json_N (Permissions de) +:+
  "," +:+ key "size" +:+ json_Z (FileSize de) +:+
  "," +:+ key "mtime" +:+ json_Z (ModTime de) +:+
  "," +:+ key "obj" +:+ json_quote (ObjectID de) +:+ "}".

(** Encode of json.Encoder: the encoding of the value followed by a newline
    character.  Encoding a DirEntry cannot fail. *)
Definition json_Encode (de : DirEntry) : string :=
  json_Marshal de +:+ String LF "".

(** ** Decoding *)

Fixpoint strip_prefix (p s : string) : option string :=
  match p with
  | EmptyString => Some s
  | String a p' =>
      match s with
      | String b s' => if Ascii.eqb a b then strip_prefix p' s' else None
      | EmptyString => None
      end
  end.

(** [bs] put before the text of a literal read so far. *)
Definition prepend (bs : string) (r : option (string * string))
  : option (string * string) :=
  match r with
  | Some (t, rest) => Some (bs +:+ t, rest)
  | None => None
  end.

(** The four hexadecimal digits of a \u escape. *)
Definition hex4 (h1 h2 h3 h4 : ascii) : option N :=
  match hex_value h1, hex_value h2, hex_value h3, hex_value h4 with
  | Some a, Some b, Some c, Some d => Some (((a * 16 + b) * 16 + c) * 16 + d)%N
  | _, _, _, _ => None
  end.

(** UTF-16 surrogates, and utf16.DecodeRune on a high and a low one. *)
Definition is_surrogate (r : N) : bool := ((55296 <=? r) && (r <=? 57343))%N.
Definition is_high_surrogate (r : N) : bool := ((55296 <=? r) && (r <=? 56319))%N.
Definition is_low_surrogate (r : N) : bool := ((56320 <=? r) && (r <=? 57343))%N.
Definition utf16_DecodeRune (r1 r2 : N) : N :=
  (N.lor (N.shiftl (r1 - 55296) 10) (r2 - 56320) + 65536)%N.

(** The body of a string literal, after its opening quote: the decoded text
    and what follows the closing quote.  An unescaped control character ends
    the parse with an error.  A \u escape gives its code point in UTF-8; a
    high surrogate takes the low surrogate of a \u escape right after it,
    and a surrogate without its pair gives U+FFFD.  A byte from 0x80 on is
    read as the encoder reads it: a well-formed sequence is copied, any other
    byte gives U+FFFD. *)
Fixpoint unquote_body (s : string) : option (string * string) :=
  match s with
  | EmptyString => None
  | String c r =>
      if Ascii.eqb c dquote then Some ("", r)
      else if Ascii.eqb c backslash then
        match r with
        | String e r' =>
            if Ascii.eqb e dquote then prepend (String dquote "") (unquote_body r')
            else if Ascii.eqb e backslash then prepend (String backslash "") (unquote_body r')
            else if Ascii.eqb e "/" then prepend "/" (unquote_body r')
            else if Ascii.eqb e "b" then prepend (String "008" "") (unquote_body r')
            else if Ascii.eqb e "f" then prepend (String "012" "") (unquote_body r')
            else if Ascii.eqb e "n" then prepend (String LF "") (unquote_body r')
            else if Ascii.eqb e "r" then prepend (String CR "") (unquote_body r')
            else if Ascii.eqb e "t" then prepend (String TAB "") (unquote_body r')
            else if Ascii.eqb e "u" then
              match r' with
              | String h1 (String h2 (String h3 (String h4 r4))) =>
                  match hex4 h1 h2 h3 h4 with
                  | Some rr =>
                      let single (_ : unit) :=
                        prepend
                          (utf8_EncodeRune (if is_surrogate rr then 65533%N else rr))
                          (unquote_body r4) in
                      if is_high_surrogate rr then
                        match r4 with
                        | String e1 (String e2
                            (String g1 (String g2 (String g3 (String g4 r10))))) =>
                            if Ascii.eqb e1 backslash && Ascii.eqb e2 "u" then
                              match hex4 g1 g2 g3 g4 with
                              | Some rr1 =>
                                  if is_low_surrogate rr1 then
                                    prepend (utf8_EncodeRune (utf16_DecodeRune rr rr1))
                                            (unquote_body r10)
                                  else single tt
                              | None => single tt
                              end
                            else single tt
                        | _ => single tt
                        end
                      else single tt
                  | None => None
                  end
              | _ => None
              end
            else None
        | EmptyString => None
        end
      else if (N_of_ascii c <? 32)%N then None
      else if (N_of_ascii c <? 128)%N then prepend (String c "") (unquote_body r)
      else
        let invalid (_ : unit) := prepend replacement (unquote_body r) in
        match r with
        | String b1 r1 =>
            if seq2 c b1
            then prepend (String c (String b1 "")) (unquote_body r1)
            else
              match r1 with
              | String b2 r2 =>
                  if seq3 c b1 b2
                  then prepend (String c (String b1 (String b2 ""))) (unquote_body r2)
                  else
                    match r2 with
                    | String b3 r3 =>
                        if seq4 c b1 b2 b3
                        then prepend (String c (String b1 (String b2 (String b3 ""))))
                                     (unquote_body r3)
                        else invalid tt
                    | EmptyString => invalid tt
                    end
              | EmptyString => invalid tt
              end
        | EmptyString => invalid tt
        end
  end.

Definition parse_string (s : string) : option (string * string) :=
  match s with
  | String c r => if Ascii.eqb c dquote then unquote_body r else None
  | EmptyString => None
  end.

Definition digit_of (c : ascii) : option (Decimal.uint -> Decimal.uint) :=
  match c with
  | "0" => Some Decimal.D0 | "1" => Some Decimal.D1 | "2" => Some Decimal.D2
  | "3" => Some Decimal.D3 | "4" => Some Decimal.D4 | "5" => Some Decimal.D5
  | "6" => Some Decimal.D6 | "7" => Some Decimal.D7 | "8" => Some Decimal.D8
  | "9" => Some Decimal.D9 | _ => None
  end%char.

(** The longest run of decimal digits at the head of a string. *)
Fixpoint scan_uint (s : string) : Decimal.uint * string :=
  match s with
  | EmptyString => (Decimal.Nil, "")
  | String c r =>
      match digit_of c with
      | Some d => let (u, rest) := scan_uint r in (d u, rest)
      | None => (Decimal.Nil, s)
      end
  end.

(** An unsigned integer: digits, without a zero before other digits (the
    scanner of the library takes no digit after a leading zero). *)
Definition parse_N (s : string) : option (N * string) :=
  match scan_uint s with
  | (Decimal.Nil, _) => None
  | (Decimal.D0 Decimal.Nil, rest) => Some (0%N, rest)
  | (Decimal.D0 _, _) => None
  | (u, rest) => Some (N.of_uint u, rest)
  end.

Definition parse_Z (s : string) : option (Z * string) :=
  match s with
  | String c r =>
      if Ascii.eqb c "-" then
        match parse_N r with
        | Some (n, rest) => Some ((- Z.of_N n)%Z, rest)
        | None => None
        end
      else
        match parse_N s with
        | Some (n, rest) => Some (Z.of_N n, rest)
        | None => None
        end
  | EmptyString => None
  end.

Definition type_of_code (s : string) : option EntryType :=
  if String.eqb s "u" then Some EntryTypeUnknown
  else if String.eqb s "f" then Some EntryTypeFile
  else if String.eqb s "d" then Some EntryTypeDirectory
  else if String.eqb s "s" then Some EntryTypeSymlink
  else None.

(** Decode of json.Decoder, into a DirEntry: reads one value from the head of
    the stream and leaves what follows it unread.  [None] stands for a
    non-nil error (also the io.EOF of an empty stream).  The reader takes the
    compact rendering that [json_Marshal] produces, members in that order
    and none left out; on a text laid out otherwise (white space, another
    order, unknown members) the library can succeed where this reader answers
    [None].  The statements below either take the outcome of decoding as a
    hypothesis or decode what the encoder wrote. *)
Definition json_Decode (s : string) : option DirEntry :=
  s1 ← strip_prefix ("{" +:+ key "name") s;
  '(name, s2) ← parse_string s1;
  s3 ← strip_prefix ("," +:+ key "type") s2;
  '(code, s4) ← parse_string s3;
  et ← type_of_code code;
  s5 ← strip_prefix ("," +:+ key "mode") s4;
  '(mode, s6) ← parse_N s5;
  s7 ← strip_prefix ("," +:+ key "size") s6;
  '(size, s8) ← parse_Z s7;
  s9 ← strip_prefix ("," +:+ key "mtime") s8;
  '(mtime, s10) ← parse_Z s9;
  s11 ← strip_prefix ("," +:+ key "obj") s10;
  '(obj, s12) ← parse_string s11;
  _ ← strip_prefix "}" s12;
  Some {| Name := name; Type_ := et; Permissions := mode; FileSize := size;
          ModTime := mtime; ObjectID := obj |}.

(** The entry as a placeholder holds it: its strings have gone through the
    encoder, which writes valid UTF-8 only. *)
Definition stored_entry (de : DirEntry) : DirEntry :=
  {| Name := utf8_coerce (Name de); Type_ := Type_ de;
     Permissions := Permissions de; FileSize := FileSize de;
     ModTime := ModTime de; ObjectID := utf8_coerce (ObjectID de) |}.


(** * shallow_fs.go *)

Definition placeholderPath (fs : fsstate) (path : string) (et : EntryType)
  : fsstate * result string :=
  match et with
  | EntryTypeFile => (fs, Ok (path +:+ ShallowEntrySuffix))
  | EntryTypeDirectory =>
      let dirpath := path +:+ ShallowEntrySuffix in
      match os_MkdirAll fs dirpath with
      | (fs', false) =>
          (fs', Err (ErrWrap (ErrMkdirAll dirpath) "placeholderPath dir creation"))
      | (fs', true) => (fs', Ok (filepath_Join dirpath ShallowEntrySuffix))
      end
  | _ => (fs, Err (ErrUnsupportedEntryType et))
  end.

Definition WriteShallowPlaceholder (fs : fsstate) (path : string) (de : DirEntry)
  : fsstate * result string :=
  let buffy := json_Encode de in
  match placeholderPath fs path (Type_ de) with
  | (fs1, Err err) => (fs1, Err (ErrWrap err "computing placeholder path"))
  | (fs1, Ok mp) =>
      match atomic_WriteFile fs1 mp buffy with
      | None => (fs1, Err (ErrWrap (ErrWriteFile mp) "error writing placeholder"))
      | Some fs2 => (fs2, Ok mp)
      end
  end.

Definition dirEntryFromPlaceholder (fs : fsstate) (path : string)
  : result DirEntry :=
  match ioutil_ReadFile fs path with
  | None =>
      Err (ErrWrap (ErrReadFile path) "dirEntryFromPlaceholder reading placeholder")
  | Some b =>
      match json_Decode b with
      | None => Err (ErrWrap ErrJSONDecode "dirEntryFromPlaceholder JSON decoding")
      | Some direntry => Ok direntry
      end
  end.

(** [Ok None] is Go's (nil, nil). *)
Definition ReadShallowPlaceholder (fs : fsstate) (path : string)
  : result (option DirEntry) :=
  let originalpresent :=
    match os_Lstat fs path with Some _ => true | None => false end in
  let php := path +:+ ShallowEntrySuffix in
  match os_Lstat fs php, originalpresent with
  | Some _, true => Err (ErrCorrupt path php)
  | st, _ =>
      let php :=
        match st with
        | Some fi => if IsDir fi then filepath_Join php ShallowEntrySuffix else php
        | None => php
        end in
      match dirEntryFromPlaceholder fs php with
      | Ok de => Ok (Some de)
      | Err _ =>
          if originalpresent then Ok None else Err (ErrNotFound path)
      end
  end.

(** Modelled from the spec: filesystemEntry is declared elsewhere in
    package localfs, outside the files verified here; of the embedded entry
    only fullPath() is used. *)
Record filesystemEntry := { fullPath : string }.

Record shallowFilesystemFile := { fsf_entry : filesystemEntry }.
Record shallowFilesystemDirectory := { fsd_entry : filesystemEntry }.

Definition fsf_DirEntryOrNil (fs : fsstate) (fsf : shallowFilesystemFile)
  : result (option DirEntry) :=
  ReadShallowPlaceholder fs (fullPath (fsf_entry fsf)).

Definition fsd_DirEntryOrNil (fs : fsstate) (fsd : shallowFilesystemDirectory)
  : result (option DirEntry) :=
  ReadShallowPlaceholder fs (fullPath (fsd_entry fsd)).

(** What Open, Child and Readdir would hand out on success is content of
    the entry; no such value is ever built, so it is a string here. *)
Definition fsf_Open (fsf : shallowFilesystemFile) : result string :=
  Err (ErrNotSupported "shallowFilesystemFile.Open").

Definition fsd_Child (fsd : shallowFilesystemDirectory) (name : string)
  : result string :=
  Err (ErrNotSupported "shallowFilesystemDirectory.Child").

Definition fsd_Readdir (fsd : shallowFilesystemDirectory) : result (list string) :=
  Err (ErrNotSupported "shallowFilesystemDirectory.Readdir").

(** Modelled from the spec: snapshot creation lives outside the files
    verified here (only its end-to-end test is among them).  Section 4.4: "At snapshot-create
    time, scanning a local tree that may contain placeholders: it must
    reject (fail the whole snapshot operation) if it observes an I1
    violation".  The scan visits the logical paths of the tree in order and
    reads each one's placeholder state; the first error ends the operation,
    and only a scan without error yields a snapshot (the entries read). *)
Fixpoint snapshot_create (fs : fsstate) (tree : list string)
  : result (list (option DirEntry)) :=
  match tree with
  | [] => Ok []
  | p :: rest =>
      match ReadShallowPlaceholder fs p with
      | Err e => Err e
      | Ok de =>
          match snapshot_create fs rest with
          | Err e => Err e
          | Ok des => Ok (de :: des)
          end
      end
  end.

(** * restore.PathIfPlaceholder *)

(** strings.HasSuffix(s, suffix):
    len(s) >= len(suffix) && s[len(s)-len(suffix):] == suffix. *)
Definition strings_HasSuffix (s suffix : string) : bool :=
  Nat.leb (String.length suffix) (String.length s) &&
  String.eqb
    (substring (String.length s - String.length suffix) (String.length suffix) s)
    suffix.

(** strings.TrimSuffix(s, suffix). *)
Definition strings_TrimSuffix (s suffix : string) : string :=
  if strings_HasSuffix s suffix
  then substring 0 (String.length s - String.length suffix) s
  else s.

(** PathIfPlaceholder of package restore.  localfs.TrimShallowSuffix is
    declared outside the files verified here and is a parameter of the
    function; localfs.SHALLOWENTRYSUFFIX is the suffix constant under its
    name of the time. *)
Definition PathIfPlaceholder (TrimShallowSuffix : string -> string)
    (path : string) : string :=
  if strings_HasSuffix path ShallowEntrySuffix then TrimShallowSuffix path
  else "".

(** * Helpers of the end-to-end test *)

Definition dIRPH : string :=
  ShallowEntrySuffix +:+ String Separator "" +:+ ShallowEntrySuffix.

Definition sUBFILE : string := String Separator "" +:+ ShallowEntrySuffix.

(** The loop of getShallowDirEntry: the content of the first candidate path
    that can be read.  A candidate is the path itself when it already ends in
    the suffix tried, and the path with that suffix appended otherwise. *)
Fixpoint getShallowDirEntry_loop (fs : fsstate) (fpath : string)
    (suffixes : list string) : option string :=
  match suffixes with
  | [] => None
  | s :: rest =>
      let p := if negb (strings_HasSuffix fpath s) then fpath +:+ s else fpath in
      match ioutil_ReadFile fs p with
      | Some b => Some b
      | None => getShallowDirEntry_loop fs fpath rest
      end
  end.

(** getShallowDirEntry: [None] stands for a failed require.NoError, which
    ends the test. *)
Definition getShallowDirEntry (fs : fsstate) (fpath : string) : option DirEntry :=
  match getShallowDirEntry_loop fs fpath [ShallowEntrySuffix; sUBFILE; dIRPH] with
  | Some b => json_Decode b
  | None => None
  end.

Definition is_error {A : Type} (r : option A) : bool :=
  match r with Some _ => false | None => true end.

(** getShallowInfo: the three paths are stat'ed in turn, [v] ends up at the
    last one without error, and its info is returned when exactly two of the
    three failed; [None] stands for the nil returned after t.Errorf. *)
Definition getShallowInfo (fs : fsstate) (srp : string) : option FileInfo :=
  let shallowinfos :=
    map (fun s => os_Lstat fs (srp +:+ s)) [""; ShallowEntrySuffix; dIRPH] in
  let v :=
    fold_left (fun v i => if is_error i then v else i) shallowinfos None in
  let errcount := List.length (filter is_error shallowinfos) in
  if Nat.eqb errcount 2 then v else None.

(** * session.getConfigBlockID *)

(** [creds] is the credentials field of the session, [None] for Go's nil;
    auth.Credentials is an interface declared outside the files verified
    here, and its method Username is a parameter. *)
Definition getConfigBlockID {Credentials : Type}
    (Username : Credentials -> string) (creds : option Credentials) : string :=
  match creds with
  | None => "config.json"
  | Some c => "users." +:+ Username c +:+ ".config.json"
  end.

(** * Predicates and sample states of the statements *)

(** Whether an entry type is Directory. *)
Definition is_Directory (et : EntryType) : bool :=
  match et with EntryTypeDirectory => true | _ => false end.

(** The path the reader decodes when only the node at [p + suffix] exists. *)
Definition placeholder_content_path (p : string) (fi : FileInfo) : string :=
  if IsDir fi
  then filepath_Join (p +:+ ShallowEntrySuffix) ShallowEntrySuffix
  else p +:+ ShallowEntrySuffix.

(** Two states with the same directories resolve every path alike. *)
Definition same_dirs (fs fs' : fsstate) : Prop :=
  forall k, is_dir fs' k = is_dir fs k.

(** Every directory on the way from [cur] up to the root exists. *)
Fixpoint dir_chain (fs : fsstate) (cur : list string) : Prop :=
  match cur with
  | [] => True
  | _ :: up => is_dir fs cur = true /\ dir_chain fs up
  end.

(** What may follow a number: anything but a digit. *)
Definition no_digit_head (s : string) : Prop :=
  match s with
  | String c _ => digit_of c = None
  | EmptyString => True
  end.

(** ** Paths made of plain names *)

Fixpoint no_sep (s : string) : bool :=
  match s with
  | EmptyString => true
  | String c r => negb (Ascii.eqb c Separator) && no_sep r
  end.

(** A plain name: not empty, not "." or "..", and without a separator. *)
Definition is_name (c : string) : bool :=
  negb (is_empty_or_dot c) && negb (String.eqb c "..") && no_sep c.

(** "/" in front of a rooted path, nothing in front of a relative one. *)
Definition root_prefix (rooted : bool) : string :=
  if rooted then String Separator "" else "".

(** The elements [out] kept by filepath.Clean against the directory [cur]
    the kernel has reached on the same elements: [out] is [cur] followed by
    the ".." elements kept at the front of a relative path, [cur] holds plain
    names only, and every directory above [cur] exists. *)
Definition clean_agrees (fs : fsstate) (rooted : bool) (out cur : list string)
  : Prop :=
  exists dd,
    out = (cur ++ dd)%list /\
    Forall (fun e => e = "..") dd /\
    (rooted = true -> dd = []) /\
    Forall (fun e => is_name e = true) cur /\
    dir_chain fs (tail cur).

(** ** Runes *)

(** Whether a well-formed sequence of two to four bytes starts with the byte
    [b0] followed by [r0]. *)
Definition starts_rune (b0 : ascii) (r0 : string) : bool :=
  match r0 with
  | String b1 r1 =>
      seq2 b0 b1 ||
      match r1 with
      | String b2 r2 =>
          seq3 b0 b1 b2 ||
          match r2 with
          | String b3 _ => seq4 b0 b1 b2 b3
          | EmptyString => false
          end
      | EmptyString => false
      end
  | EmptyString => false
  end.

(** ** Well-formed JSON texts (RFC 8259) *)

Definition is_ws (c : ascii) : bool :=
  Ascii.eqb c " " || Ascii.eqb c TAB || Ascii.eqb c LF || Ascii.eqb c CR.

Fixpoint skip_ws (s : string) : string :=
  match s with
  | String c r => if is_ws c then skip_ws r else s
  | EmptyString => ""
  end.

Definition is_hex (c : ascii) : bool :=
  match hex_value c with Some _ => true | None => false end.

Definition is_simple_escape (e : ascii) : bool :=
  Ascii.eqb e dquote || Ascii.eqb e backslash || Ascii.eqb e "/" ||
  Ascii.eqb e "b" || Ascii.eqb e "f" || Ascii.eqb e "n" ||
  Ascii.eqb e "r" || Ascii.eqb e "t".

(** The rest of the text after a string literal whose opening quote has
    been read. *)
Fixpoint scan_string (s : string) : option string :=
  match s with
  | EmptyString => None
  | String c r =>
      if Ascii.eqb c dquote then Some r
      else if Ascii.eqb c backslash then
        match r with
        | String e r' =>
            if is_simple_escape e then scan_string r'
            else if Ascii.eqb e "u" then
              match r' with
              | String h1 (String h2 (String h3 (String h4 r''))) =>
                  if is_hex h1 && is_hex h2 && is_hex h3 && is_hex h4
                  then scan_string r'' else None
              | _ => None
              end
            else None
        | EmptyString => None
        end
      else if (N_of_ascii c <? 32)%N then None
      else scan_string r
  end.

Definition is_digit (c : ascii) : bool :=
  match digit_of c with Some _ => true | None => false end.

Fixpoint skip_digits (s : string) : string :=
  match s with
  | String c r => if is_digit c then skip_digits r else s
  | EmptyString => ""
  end.

(** One digit or more. *)
Definition scan_digits1 (s : string) : option string :=
  match s with
  | String c r => if is_digit c then Some (skip_digits r) else None
  | EmptyString => None
  end.

(** The integer part: a single zero, or a digit other than zero followed by
    digits. *)
Definition scan_int (s : string) : option string :=
  match s with
  | String c r =>
      if Ascii.eqb c "0" then Some r
      else if is_digit c then Some (skip_digits r)
      else None
  | EmptyString => None
  end.

Definition scan_frac (s : string) : option string :=
  match s with
  | String c r => if Ascii.eqb c "." then scan_digits1 r else Some s
  | EmptyString => Some s
  end.

Definition scan_exp (s : string) : option string :=
  match s with
  | String c r =>
      if Ascii.eqb c "e" || Ascii.eqb c "E" then
        match r with
        | String sg r' =>
            if Ascii.eqb sg "+" || Ascii.eqb sg "-" then scan_digits1 r'
            else scan_digits1 r
        | EmptyString => None
        end
      else Some s
  | EmptyString => Some s
  end.

Definition scan_number (s : string) : option string :=
  let s1 :=
    match s with
    | String c r => if Ascii.eqb c "-" then r else s
    | EmptyString => s
    end in
  match scan_int s1 with
  | Some s2 =>
      match scan_frac s2 with
      | Some s3 => scan_exp s3
      | None => None
      end
  | None => None
  end.

(** The rest of the text after one JSON value at its head; [None] when the
    text does not start with a value.  The fuel bounds the number of nested
    and successive values, and the length of the text is always enough. *)
Fixpoint scan_value (fuel : nat) (s : string) : option string :=
  match fuel with
  | O => None
  | S f =>
      match s with
      | EmptyString => None
      | String c r =>
          if Ascii.eqb c "{" then
            match skip_ws r with
            | String c2 r2 =>
                if Ascii.eqb c2 "}" then Some r2
                else scan_members f (String c2 r2)
            | EmptyString => None
            end
          else if Ascii.eqb c "[" then
            match skip_ws r with
            | String c2 r2 =>
                if Ascii.eqb c2 "]" then Some r2
                else scan_elements f (String c2 r2)
            | EmptyString => None
            end
          else if Ascii.eqb c dquote then scan_string r
          else if Ascii.eqb c "t" then strip_prefix "true" s
          else if Ascii.eqb c "f" then strip_prefix "false" s
          else if Ascii.eqb c "n" then strip_prefix "null" s
          else scan_number s
      end
  end
with scan_members (fuel : nat) (s : string) : option string :=
  match fuel with
  | O => None
  | S f =>
      match s with
      | String c r =>
          if Ascii.eqb c dquote then
            match scan_string r with
            | Some r1 =>
                match skip_ws r1 with
                | String c2 r2 =>
                    if Ascii.eqb c2 ":" then
                      match scan_value f (skip_ws r2) with
                      | Some r3 =>
                          match skip_ws r3 with
                          | String c4 r4 =>
                              if Ascii.eqb c4 "," then scan_members f (skip_ws r4)
                              else if Ascii.eqb c4 "}" then Some r4
                              else None
                          | EmptyString => None
                          end
                      | None => None
                      end
                    else None
                | EmptyString => None
                end
            | None => None
            end
          else None
      | EmptyString => None
      end
  end
with scan_elements (fuel : nat) (s : string) : option string :=
  match fuel with
  | O => None
  | S f =>
      match scan_value f s with
      | Some r1 =>
          match skip_ws r1 with
          | String c2 r2 =>
              if Ascii.eqb c2 "," then scan_elements f (skip_ws r2)
              else if Ascii.eqb c2 "]" then Some r2
              else None
          | EmptyString => None
          end
      | None => None
      end
  end.

(** The whole of [s] is one JSON object: it opens with a brace, and the
    value that starts there ends where [s] ends. *)
Definition is_json_object (s : string) : Prop :=
  (exists r, s = String "{" r) /\ scan_value (String.length s) s = Some "".

Fixpoint newline_free (s : string) : bool :=
  match s with
  | EmptyString => true
  | String c r => negb (Ascii.eqb c LF) && newline_free r
  end.

(** What follows a member's value in the encoder's output. *)
Definition closes_value (c : ascii) : Prop := c = ","%char \/ c = "}"%char.

(** ** Sample entries and trees *)

Definition sample_entry (et : EntryType) : DirEntry :=
  {| Name := "f1"; Type_ := et; Permissions := 420; FileSize := 1024;
     ModTime := 1600000000000000000; ObjectID := "Df0f0" |}.

Definition torn_tree : fsstate :=
  <[ ["f1.kopia-entry"; "src"] := NFile "" ]>
    (<[ ["f1"; "src"] := NFile "data" ]> (<[ ["src"] := NDir ]> ∅)).

Definition real_file : fsstate := <[ ["f1"] := NFile "data" ]> ∅.

Definition shallow_tree : fsstate :=
  fst (WriteShallowPlaceholder
         (fst (WriteShallowPlaceholder ∅ "f1" (sample_entry EntryTypeFile)))
         "d1" (sample_entry EntryTypeDirectory)).

(** An entry whose name is no valid UTF-8: the byte 0xFF between two
    letters. *)
Definition ill_named_entry : DirEntry :=
  {| Name := String "a" (String "255" "b"); Type_ := EntryTypeFile;
     Permissions := 420; FileSize := 1024; ModTime := 1600000000000000000;
     ObjectID := "Df0f0" |}.

(** A second entry for the same name. *)
Definition later_entry : DirEntry :=
  {| Name := "f1"; Type_ := EntryTypeFile; Permissions := 384; FileSize := 7;
     ModTime := 1700000000000000000; ObjectID := "Dabcd" |}.

(** A tree with a regular file where a parent directory would have to be:
    MkdirAll cannot make a directory under it. *)
Definition file_in_the_way : fsstate := <[ ["a"] := NFile "x" ]> ∅.

(** An empty restore target. *)
Definition restore_root : fsstate := <[ ["dest"] := NDir ]> ∅.

(** * Strings *)

Lemma append_cons (x : ascii) (a b : string) :
  String x a +:+ b = String x (a +:+ b).
Proof. reflexivity. Qed.

Lemma append_nil_l (b : string) : "" +:+ b = b.
Proof. reflexivity. Qed.

Lemma append_assoc (a b c : string) : (a +:+ b) +:+ c = a +:+ (b +:+ c).
Proof.
  induction a as [|x a IH]; [reflexivity|].
  rewrite !append_cons. f_equal. exact IH.
Qed.

Lemma append_nil_r (a : string) : a +:+ "" = a.
Proof.
  induction a as [|x a IH]; [reflexivity|].
  rewrite append_cons. f_equal. exact IH.
Qed.

(** Appends pushed to the right, and through the characters of a known
    prefix. *)
Ltac norm_app :=
  repeat (rewrite append_assoc || rewrite append_cons || rewrite append_nil_l).

Lemma strip_prefix_app (p r : string) : strip_prefix p (p +:+ r) = Some r.
Proof.
  induction p as [|a p IH]; [reflexivity|].
  rewrite append_cons. simpl. now rewrite Ascii.eqb_refl.
Qed.

Lemma strip_prefix_app2 (a b r : string) :
  strip_prefix (a +:+ b) (a +:+ b +:+ r) = Some r.
Proof. rewrite <- append_assoc. apply strip_prefix_app. Qed.

(** * The codec reads back what it wrote *)

(** ** Strings rune by rune *)

Ltac byte_facts :=
  unfold seq2, seq3, seq4, byte_in in *;
  repeat match goal with
  | H : _ && _ = true |- _ => apply andb_true_iff in H; destruct H
  | H : _ || _ = true |- _ => apply orb_true_iff in H; destruct H
  | H : (_ <=? _)%N = true |- _ => apply N.leb_le in H
  | H : (_ <? _)%N = true |- _ => apply N.ltb_lt in H
  | H : (_ <? _)%N = false |- _ => apply N.ltb_ge in H
  | H : (_ <=? _)%N = false |- _ => apply N.leb_gt in H
  end.

Ltac byte_false :=
  match goal with
  | |- ?b = false => destruct b eqn:?; [exfalso; byte_facts; lia | reflexivity]
  end.

Section FoldRunes.

Context {A : Type} (one : ascii -> A -> A) (seq : string -> A -> A)
  (bad : A -> A) (nil : A).

Local Abbreviation fold := (fold_runes one seq bad nil).

Lemma fold_runes_ascii b0 r0 :
  (N_of_ascii b0 <? 128)%N = true ->
  fold (String b0 r0) = one b0 (fold r0).
Proof. intros H. simpl. now rewrite H. Qed.

Lemma fold_runes_seq2 b0 b1 r1 :
  seq2 b0 b1 = true ->
  fold (String b0 (String b1 r1)) = seq (String b0 (String b1 "")) (fold r1).
Proof.
  intros H. simpl. rewrite H.
  assert ((N_of_ascii b0 <? 128)%N = false) as -> by byte_false.
  reflexivity.
Qed.

Lemma fold_runes_seq3 b0 b1 b2 r2 :
  seq3 b0 b1 b2 = true ->
  fold (String b0 (String b1 (String b2 r2)))
  = seq (String b0 (String b1 (String b2 ""))) (fold r2).
Proof.
  intros H. simpl. rewrite H.
  assert ((N_of_ascii b0 <? 128)%N = false) as -> by byte_false.
  assert (seq2 b0 b1 = false) as -> by byte_false.
  reflexivity.
Qed.

Lemma fold_runes_seq4 b0 b1 b2 b3 r3 :
  seq4 b0 b1 b2 b3 = true ->
  fold (String b0 (String b1 (String b2 (String b3 r3))))
  = seq (String b0 (String b1 (String b2 (String b3 "")))) (fold r3).
Proof.
  intros H. simpl. rewrite H.
  assert ((N_of_ascii b0 <? 128)%N = false) as -> by byte_false.
  assert (seq2 b0 b1 = false) as -> by byte_false.
  assert (seq3 b0 b1 b2 = false) as -> by byte_false.
  reflexivity.
Qed.

Lemma fold_runes_bad b0 r0 :
  (N_of_ascii b0 <? 128)%N = false -> starts_rune b0 r0 = false ->
  fold (String b0 r0) = bad (fold r0).
Proof.
  intros H1 H2. simpl. rewrite H1.
  destruct r0 as [|b1 [|b2 [|b3 r3]]]; simpl in H2;
    repeat match type of H2 with
    | _ || _ = false => apply orb_false_iff in H2; destruct H2 as [? H2]
    end;
    repeat match goal with H : _ = false |- _ => rewrite H end;
    reflexivity.
Qed.

End FoldRunes.

Lemma runes_ind (P : string -> Prop) :
  P "" ->
  (forall b0 r0, (N_of_ascii b0 <? 128)%N = true -> P r0 -> P (String b0 r0)) ->
  (forall b0 b1 r1, seq2 b0 b1 = true -> P r1 -> P (String b0 (String b1 r1))) ->
  (forall b0 b1 b2 r2, seq3 b0 b1 b2 = true -> P r2 ->
     P (String b0 (String b1 (String b2 r2)))) ->
  (forall b0 b1 b2 b3 r3, seq4 b0 b1 b2 b3 = true -> P r3 ->
     P (String b0 (String b1 (String b2 (String b3 r3))))) ->
  (forall b0 r0, (N_of_ascii b0 <? 128)%N = false -> starts_rune b0 r0 = false ->
     P r0 -> P (String b0 r0)) ->
  forall s, P s.
Proof.
  intros Hnil Hone H2 H3 H4 Hbad s.
  assert (Hall : forall n s, String.length s <= n -> P s).
  { clear s. induction n as [|n IH]; intros s Hlen.
    - destruct s; [exact Hnil | simpl in Hlen; lia].
    - destruct s as [|b0 r0]; [exact Hnil|]. simpl in Hlen.
      destruct (N_of_ascii b0 <? 128)%N eqn:E0.
      { apply Hone; [exact E0 | apply IH; lia]. }
      destruct (starts_rune b0 r0) eqn:Es.
      2:{ apply Hbad; [exact E0 | exact Es | apply IH; lia]. }
      destruct r0 as [|b1 r1]; [discriminate|]. simpl in Hlen, Es.
      destruct (seq2 b0 b1) eqn:E2.
      { apply H2; [exact E2 | apply IH; lia]. }
      destruct r1 as [|b2 r2]; [discriminate|]. simpl in Hlen, Es.
      destruct (seq3 b0 b1 b2) eqn:E3.
      { apply H3; [exact E3 | apply IH; lia]. }
      destruct r2 as [|b3 r3]; [discriminate|]. simpl in Hlen, Es.
      apply H4; [exact Es | apply IH; lia]. }
  exact (Hall _ s (le_n _)).
Qed.

Lemma utf8_coerce_valid (s : string) :
  utf8_ValidString s = true -> utf8_coerce s = s.
Proof.
  unfold utf8_ValidString, utf8_coerce.
  induction s as [|b0 r0 H IH|b0 b1 r1 H IH|b0 b1 b2 r2 H IH|b0 b1 b2 b3 r3 H IH
                 |b0 r0 H Hs IH] using runes_ind.
  - reflexivity.
  - rewrite !fold_runes_ascii by exact H. intros Hv. now rewrite IH.
  - rewrite !fold_runes_seq2 by exact H. intros Hv. rewrite IH by exact Hv.
    reflexivity.
  - rewrite !fold_runes_seq3 by exact H. intros Hv. rewrite IH by exact Hv.
    reflexivity.
  - rewrite !fold_runes_seq4 by exact H. intros Hv. rewrite IH by exact Hv.
    reflexivity.
  - rewrite (fold_runes_bad _ _ _ _ _ _ H Hs). discriminate.
Qed.

Lemma high_byte_plain c :
  (N_of_ascii c <? 128)%N = false ->
  Ascii.eqb c dquote = false /\ Ascii.eqb c backslash = false /\
  (N_of_ascii c <? 32)%N = false.
Proof.
  intros H. repeat split.
  - destruct (Ascii.eqb_spec c dquote) as [->|]; [discriminate | reflexivity].
  - destruct (Ascii.eqb_spec c backslash) as [->|]; [discriminate | reflexivity].
  - apply N.ltb_ge in H. apply N.ltb_ge. lia.
Qed.

Lemma unquote_seq2 b0 b1 t :
  seq2 b0 b1 = true ->
  unquote_body (String b0 (String b1 t))
  = prepend (String b0 (String b1 "")) (unquote_body t).
Proof.
  intros H.
  assert (H0 : (N_of_ascii b0 <? 128)%N = false) by byte_false.
  destruct (high_byte_plain _ H0) as (Hq & Hb & Hc).
  simpl. rewrite Hq, Hb, Hc, H0, H. reflexivity.
Qed.

Lemma unquote_seq3 b0 b1 b2 t :
  seq3 b0 b1 b2 = true ->
  unquote_body (String b0 (String b1 (String b2 t)))
  = prepend (String b0 (String b1 (String b2 ""))) (unquote_body t).
Proof.
  intros H.
  assert (H0 : (N_of_ascii b0 <? 128)%N = false) by byte_false.
  assert (H2 : seq2 b0 b1 = false) by byte_false.
  destruct (high_byte_plain _ H0) as (Hq & Hb & Hc).
  simpl. rewrite Hq, Hb, Hc, H0, H2, H. reflexivity.
Qed.

Lemma unquote_seq4 b0 b1 b2 b3 t :
  seq4 b0 b1 b2 b3 = true ->
  unquote_body (String b0 (String b1 (String b2 (String b3 t))))
  = prepend (String b0 (String b1 (String b2 (String b3 "")))) (unquote_body t).
Proof.
  intros H.
  assert (H0 : (N_of_ascii b0 <? 128)%N = false) by byte_false.
  assert (H2 : seq2 b0 b1 = false) by byte_false.
  assert (H3 : seq3 b0 b1 b2 = false) by byte_false.
  destruct (high_byte_plain _ H0) as (Hq & Hb & Hc).
  simpl. rewrite Hq, Hb, Hc, H0, H2, H3, H. reflexivity.
Qed.

Lemma unquote_escape_char (c : ascii) (t : string) :
  (N_of_ascii c <? 128)%N = true ->
  unquote_body (escape_char c +:+ t) = prepend (String c "") (unquote_body t).
Proof.
  destruct c as [[] [] [] [] [] [] [] []]; intros H;
    solve [discriminate H | reflexivity].
Qed.

Lemma unquote_replacement (t : string) :
  unquote_body (String backslash "ufffd" +:+ t)
  = prepend replacement (unquote_body t).
Proof. reflexivity. Qed.

Lemma escape_seq_other (bs : string) :
  String.length bs <> 3 -> escape_seq bs = bs.
Proof.
  intros H. unfold escape_seq.
  destruct (String.eqb_spec bs line_separator) as [->|_]; [now elim H|].
  destruct (String.eqb_spec bs paragraph_separator) as [->|_]; [now elim H|].
  reflexivity.
Qed.

Lemma unquote_escape_seq3 b0 b1 b2 t :
  seq3 b0 b1 b2 = true ->
  unquote_body (escape_seq (String b0 (String b1 (String b2 ""))) +:+ t)
  = prepend (String b0 (String b1 (String b2 ""))) (unquote_body t).
Proof.
  intros H. unfold escape_seq.
  destruct (String.eqb_spec (String b0 (String b1 (String b2 ""))) line_separator)
    as [->|_]; [reflexivity|].
  destruct (String.eqb_spec (String b0 (String b1 (String b2 ""))) paragraph_separator)
    as [->|_]; [reflexivity|].
  norm_app. now apply unquote_seq3.
Qed.

(** What the decoder reads back from an encoded string is the string with
    every byte that is not part of well-formed UTF-8 replaced by U+FFFD. *)
Lemma unquote_escape (s r : string) :
  unquote_body (escape s +:+ String dquote r) = Some (utf8_coerce s, r).
Proof.
  unfold escape, utf8_coerce.
  induction s as [|b0 r0 H IH|b0 b1 r1 H IH|b0 b1 b2 r2 H IH|b0 b1 b2 b3 r3 H IH
                 |b0 r0 H Hs IH] using runes_ind.
  - reflexivity.
  - rewrite !fold_runes_ascii by exact H.
    now rewrite append_assoc, unquote_escape_char, IH.
  - rewrite !fold_runes_seq2 by exact H.
    rewrite escape_seq_other by (simpl; lia). norm_app.
    now rewrite unquote_seq2, IH.
  - rewrite !fold_runes_seq3 by exact H.
    now rewrite append_assoc, unquote_escape_seq3, IH.
  - rewrite !fold_runes_seq4 by exact H.
    rewrite escape_seq_other by (simpl; lia). norm_app.
    now rewrite unquote_seq4, IH.
  - rewrite !(fold_runes_bad _ _ _ _ _ _ H Hs).
    now rewrite append_assoc, unquote_replacement, IH.
Qed.

Lemma parse_string_quote (s r : string) :
  parse_string (json_quote s +:+ r) = Some (utf8_coerce s, r).
Proof.
  unfold json_quote, parse_string. norm_app.
  rewrite Ascii.eqb_refl. apply unquote_escape.
Qed.

Lemma scan_uint_no_digit (s : string) :
  no_digit_head s -> scan_uint s = (Decimal.Nil, s).
Proof.
  destruct s as [|c r]; simpl; [reflexivity|].
  intros ->. reflexivity.
Qed.

Lemma scan_uint_string_of_uint (u : Decimal.uint) (rest : string) :
  no_digit_head rest ->
  scan_uint (NilEmpty.string_of_uint u +:+ rest) = (u, rest).
Proof.
  intros Hrest.
  induction u as [|u IH|u IH|u IH|u IH|u IH|u IH|u IH|u IH|u IH|u IH];
    simpl; norm_app; simpl; try (rewrite IH; reflexivity).
  now apply scan_uint_no_digit.
Qed.

Lemma to_uint_nonnil (n : N) : N.to_uint n <> Decimal.Nil.
Proof.
  rewrite <- (Unsigned.of_to n) at 1. rewrite Unsigned.to_of.
  apply unorm_nonnil.
Qed.

Lemma nzhead_not_D0 (u v : Decimal.uint) : Decimal.nzhead u <> Decimal.D0 v.
Proof. induction u; simpl; congruence. Qed.

(** A normalised numeral is "0" or starts with a digit other than zero. *)
Lemma unorm_fixpoint_shape (u : Decimal.uint) :
  Decimal.unorm u = u ->
  u = Decimal.D0 Decimal.Nil \/
  match u with Decimal.Nil | Decimal.D0 _ => False | _ => True end.
Proof.
  destruct u as [|u|u|u|u|u|u|u|u|u|u]; try (intros _; right; exact I).
  - intros H. discriminate H.
  - intros H. left. rewrite unorm_D0 in H. unfold Decimal.unorm in H.
    destruct (Decimal.nzhead u) eqn:Hz; try congruence.
    subst. now apply nzhead_not_D0 in Hz.
Qed.

Lemma to_uint_normal (n : N) : Decimal.unorm (N.to_uint n) = N.to_uint n.
Proof.
  rewrite <- (Unsigned.of_to n) at 2. now rewrite Unsigned.to_of.
Qed.

Lemma parse_N_json_N (n : N) (rest : string) :
  no_digit_head rest -> parse_N (json_N n +:+ rest) = Some (n, rest).
Proof.
  intros Hrest. unfold parse_N, json_N.
  rewrite scan_uint_string_of_uint by assumption.
  rewrite <- (Unsigned.of_to n) at 2.
  destruct (unorm_fixpoint_shape _ (to_uint_normal n)) as [-> | Hshape];
    [reflexivity|].
  destruct (N.to_uint n); try reflexivity; contradiction.
Qed.

(** A rendered number starts with a digit. *)
Lemma json_N_head (n : N) :
  exists c r, json_N n = String c r /\ digit_of c <> None.
Proof.
  unfold json_N. pose proof (to_uint_nonnil n) as Hn.
  destruct (N.to_uint n); simpl; try contradiction;
    eexists _, _; (split; [reflexivity | discriminate]).
Qed.

Lemma parse_Z_json_Z (z : Z) (rest : string) :
  no_digit_head rest -> parse_Z (json_Z z +:+ rest) = Some (z, rest).
Proof.
  intros Hrest. unfold json_Z, parse_Z.
  destruct (Z.ltb_spec z 0) as [Hneg|Hpos].
  - rewrite append_cons. simpl.
    rewrite parse_N_json_N by assumption. f_equal. f_equal. lia.
  - destruct (json_N_head (Z.to_N z)) as (c & r & Heq & Hdig).
    pose proof (parse_N_json_N (Z.to_N z) rest Hrest) as HN.
    rewrite Heq in *. rewrite append_cons in *.
    destruct (Ascii.eqb_spec c "-") as [->|_]; [now elim Hdig|].
    rewrite HN. f_equal. f_equal. lia.
Qed.

Lemma type_of_code_type_code (et : EntryType) :
  type_of_code (utf8_coerce (type_code et)) = Some et.
Proof. destruct et; reflexivity. Qed.

(** The decoder reads one value and does not look at what follows it. *)
Lemma json_Decode_Marshal (de : DirEntry) (rest : string) :
  json_Decode (json_Marshal de +:+ rest) = Some (stored_entry de).
Proof.
  destruct de as [name et mode size mtime obj].
  unfold json_Decode, json_Marshal.
  cbn [Name Type_ Permissions FileSize ModTime ObjectID].
  repeat rewrite append_assoc.
  rewrite strip_prefix_app2. cbn [mbind option_bind].
  rewrite parse_string_quote. cbn [mbind option_bind].
  rewrite strip_prefix_app2. cbn [mbind option_bind].
  rewrite parse_string_quote. cbn [mbind option_bind].
  rewrite type_of_code_type_code. cbn [mbind option_bind].
  rewrite strip_prefix_app2. cbn [mbind option_bind].
  rewrite parse_N_json_N by exact eq_refl. cbn [mbind option_bind].
  rewrite strip_prefix_app2. cbn [mbind option_bind].
  rewrite parse_Z_json_Z by exact eq_refl. cbn [mbind option_bind].
  rewrite strip_prefix_app2. cbn [mbind option_bind].
  rewrite parse_Z_json_Z by exact eq_refl. cbn [mbind option_bind].
  rewrite strip_prefix_app2. cbn [mbind option_bind].
  rewrite parse_string_quote. cbn [mbind option_bind].
  rewrite strip_prefix_app. reflexivity.
Qed.

Lemma json_Decode_Encode (de : DirEntry) :
  json_Decode (json_Encode de) = Some (stored_entry de).
Proof. unfold json_Encode. apply json_Decode_Marshal. Qed.

Lemma stored_entry_valid (de : DirEntry) :
  utf8_ValidString (Name de) = true -> utf8_ValidString (ObjectID de) = true ->
  stored_entry de = de.
Proof.
  intros Hn Ho. destruct de as [name et mode size mtime obj].
  unfold stored_entry. simpl in *.
  now rewrite (utf8_coerce_valid _ Hn), (utf8_coerce_valid _ Ho).
Qed.

(** * System calls on the modelled file system *)

Section FileSystem.

Implicit Types (fs : fsstate) (k cur : list string) (elems : list string).

Lemma is_dir_node fs k : is_dir fs k = true <-> node_at fs k = Some NDir.
Proof.
  unfold is_dir. destruct (node_at fs k) as [[c|]|]; split; congruence.
Qed.

Lemma walk_same_dirs fs fs' cur elems :
  same_dirs fs fs' -> walk fs' cur elems = walk fs cur elems.
Proof.
  intros Hsame. revert cur.
  induction elems as [|c rest IH]; intros cur; simpl; [reflexivity|].
  rewrite Hsame. destruct (is_dir fs cur); [|reflexivity].
  destruct (is_empty_or_dot c); [apply IH|].
  destruct (String.eqb c ".."); apply IH.
Qed.

Lemma namei_same_dirs fs fs' path :
  same_dirs fs fs' -> namei fs' path = namei fs path.
Proof.
  intros Hsame. unfold namei.
  destruct (String.eqb path ""); [reflexivity|].
  now apply walk_same_dirs.
Qed.

(** A file that cannot be stat'ed cannot be read. *)
Lemma ReadFile_Lstat fs path c :
  ioutil_ReadFile fs path = Some c ->
  os_Lstat fs path = Some {| IsDir := false |}.
Proof.
  unfold ioutil_ReadFile, os_Lstat.
  destruct (namei fs path) as [k|]; [|discriminate].
  destruct (node_at fs k) as [[c'|]|]; try discriminate. reflexivity.
Qed.

Lemma Lstat_None_ReadFile fs path :
  os_Lstat fs path = None -> ioutil_ReadFile fs path = None.
Proof.
  intros HL. destruct (ioutil_ReadFile fs path) as [c|] eqn:HR; [|reflexivity].
  apply ReadFile_Lstat in HR. congruence.
Qed.

(** ** atomic.WriteFile *)

Lemma WriteFile_inv fs path data fs' :
  atomic_WriteFile fs path data = Some fs' ->
  exists k, namei fs path = Some k /\ is_dir fs k = false /\ k <> [] /\
            fs' = <[k := NFile data]> fs.
Proof.
  unfold atomic_WriteFile.
  destruct (namei fs path) as [k|]; [|discriminate].
  intros H. exists k. split; [reflexivity|].
  destruct k as [|c k']; [discriminate|].
  unfold is_dir. destruct (node_at fs (c :: k')) as [[d|]|];
    inversion H; subst; repeat split; congruence.
Qed.

Lemma insert_file_same_dirs fs k data :
  is_dir fs k = false -> same_dirs fs (<[k := NFile data]> fs).
Proof.
  intros Hk x. destruct (decide (x = k)) as [->|Hne].
  - rewrite Hk. unfold is_dir, node_at.
    destruct k; [discriminate Hk|]. now rewrite lookup_insert_eq.
  - unfold is_dir, node_at. destruct x; [reflexivity|].
    now rewrite lookup_insert_ne by congruence.
Qed.

Lemma WriteFile_same_dirs fs path data fs' :
  atomic_WriteFile fs path data = Some fs' -> same_dirs fs fs'.
Proof.
  intros H. apply WriteFile_inv in H as (k & _ & Hk & _ & ->).
  now apply insert_file_same_dirs.
Qed.

(** What was written is what is read, under the same path string. *)
Lemma WriteFile_ReadFile fs path data fs' :
  atomic_WriteFile fs path data = Some fs' ->
  ioutil_ReadFile fs' path = Some data.
Proof.
  intros H. pose proof (WriteFile_same_dirs _ _ _ _ H) as Hsame.
  apply WriteFile_inv in H as (k & Hn & Hk & Hne & ->).
  unfold ioutil_ReadFile. rewrite (namei_same_dirs _ _ _ Hsame), Hn.
  destruct k; [congruence|]. unfold node_at. now rewrite lookup_insert_eq.
Qed.

(** Writing a file neither creates nor removes a directory. *)
Lemma WriteFile_Lstat_dir fs path data fs' q :
  atomic_WriteFile fs path data = Some fs' ->
  os_Lstat fs q = Some {| IsDir := true |} ->
  os_Lstat fs' q = Some {| IsDir := true |}.
Proof.
  intros H HL. pose proof (WriteFile_same_dirs _ _ _ _ H) as Hsame.
  unfold os_Lstat in *. rewrite (namei_same_dirs _ _ _ Hsame).
  destruct (namei fs q) as [k|]; [|discriminate].
  assert (Hd : is_dir fs k = true).
  { unfold is_dir. destruct (node_at fs k) as [[c|]|]; try discriminate.
    reflexivity. }
  rewrite <- Hsame in Hd. apply is_dir_node in Hd. now rewrite Hd.
Qed.

(** ** os.MkdirAll *)

Lemma dir_chain_is_dir fs cur : dir_chain fs cur -> is_dir fs cur = true.
Proof. destruct cur; [reflexivity | now intros [H _]]. Qed.

Lemma dir_chain_tail fs cur : dir_chain fs cur -> dir_chain fs (tail cur).
Proof. destruct cur; [easy | now intros [_ H]]. Qed.

Lemma is_dir_insert_dir fs k x :
  is_dir fs x = true -> is_dir (<[k := NDir]> fs) x = true.
Proof.
  unfold is_dir, node_at. destruct x as [|c x']; [reflexivity|].
  destruct (decide (c :: x' = k)) as [<-|Hne].
  - now rewrite lookup_insert_eq.
  - now rewrite lookup_insert_ne by congruence.
Qed.

Lemma dir_chain_insert_dir fs k cur :
  dir_chain fs cur -> dir_chain (<[k := NDir]> fs) cur.
Proof.
  induction cur as [|c up IH]; [easy|].
  intros [H1 H2]. split; [now apply is_dir_insert_dir | now apply IH].
Qed.

Lemma mkdir_walk_mono fs cur elems fs' b x :
  mkdir_walk fs cur elems = (fs', b) ->
  is_dir fs x = true -> is_dir fs' x = true.
Proof.
  revert fs cur. induction elems as [|c rest IH]; intros fs cur; simpl.
  - now intros [= <- _].
  - destruct (is_empty_or_dot c); [apply IH|].
    destruct (String.eqb c ".."); [apply IH|].
    destruct (fs !! (c :: cur)) as [[d|]|] eqn:Hk.
    + now intros [= <- _].
    + apply IH.
    + intros H Hx. eapply IH; [exact H|]. now apply is_dir_insert_dir.
Qed.

Lemma mkdir_walk_ok fs cur elems fs' :
  mkdir_walk fs cur elems = (fs', true) ->
  dir_chain fs cur ->
  exists k, walk fs' cur elems = Some k /\ dir_chain fs' k.
Proof.
  revert fs cur. induction elems as [|c rest IH]; intros fs cur.
  - simpl. intros [= <-] Hc. now exists cur.
  - intros H Hc.
    assert (Hcur : is_dir fs' cur = true).
    { eapply mkdir_walk_mono; [exact H|]. now apply dir_chain_is_dir. }
    simpl in H |- *. rewrite Hcur.
    destruct (is_empty_or_dot c); [now apply (IH fs)|].
    destruct (String.eqb c "..").
    { apply (IH fs); [exact H|]. now apply dir_chain_tail. }
    destruct (fs !! (c :: cur)) as [[d|]|] eqn:Hk.
    + discriminate.
    + apply (IH fs); [exact H|]. split; [|exact Hc].
      unfold is_dir, node_at. now rewrite Hk.
    + apply (IH (<[c :: cur := NDir]> fs)); [exact H|]. split.
      * unfold is_dir, node_at. now rewrite lookup_insert_eq.
      * now apply dir_chain_insert_dir.
Qed.

(** After a successful MkdirAll the path is a directory. *)
Lemma MkdirAll_Lstat fs path fs' :
  os_MkdirAll fs path = (fs', true) ->
  os_Lstat fs' path = Some {| IsDir := true |}.
Proof.
  unfold os_MkdirAll, os_Lstat, namei.
  destruct (String.eqb path ""); [discriminate|].
  intros H. apply mkdir_walk_ok in H as (k & -> & Hk); [|exact I].
  apply dir_chain_is_dir, is_dir_node in Hk. now rewrite Hk.
Qed.

Lemma walk_is_dir_start fs cur elems k :
  walk fs cur elems = Some k -> is_dir fs k = true -> is_dir fs cur = true.
Proof.
  destruct elems as [|c rest]; simpl.
  - now intros [= ->].
  - destruct (is_dir fs cur); [reflexivity | discriminate].
Qed.

(** On a path that already is a directory MkdirAll changes nothing. *)
Lemma mkdir_walk_existing fs cur elems k :
  walk fs cur elems = Some k -> is_dir fs k = true ->
  mkdir_walk fs cur elems = (fs, true).
Proof.
  revert cur. induction elems as [|c rest IH]; intros cur; simpl; [reflexivity|].
  destruct (is_dir fs cur); [|discriminate].
  destruct (is_empty_or_dot c); [apply IH|].
  destruct (String.eqb c ".."); [apply IH|].
  intros Hw Hk. pose proof (walk_is_dir_start _ _ _ _ Hw Hk) as Hd.
  apply is_dir_node in Hd. simpl in Hd. rewrite Hd. now apply IH.
Qed.

Lemma MkdirAll_existing fs path :
  os_Lstat fs path = Some {| IsDir := true |} ->
  os_MkdirAll fs path = (fs, true).
Proof.
  unfold os_MkdirAll, os_Lstat, namei.
  destruct (String.eqb path ""); [discriminate|].
  destruct (walk fs [] (split_sep path)) as [k|] eqn:Hw; [|discriminate].
  intros H. apply (mkdir_walk_existing _ _ _ k Hw).
  unfold is_dir. destruct (node_at fs k) as [[c|]|]; try discriminate.
  reflexivity.
Qed.

End FileSystem.

(** * The reader *)

Section Reader.

Implicit Types (fs : fsstate) (p : string) (e : DirEntry).

(** The branches of [ReadShallowPlaceholder], one lemma each. *)

Lemma Read_both fs p fi fi' :
  os_Lstat fs p = Some fi ->
  os_Lstat fs (p +:+ ShallowEntrySuffix) = Some fi' ->
  ReadShallowPlaceholder fs p = Err (ErrCorrupt p (p +:+ ShallowEntrySuffix)).
Proof.
  intros H1 H2. unfold ReadShallowPlaceholder. now rewrite H1, H2.
Qed.

Lemma dirEntryFromPlaceholder_unreadable fs q :
  ioutil_ReadFile fs q = None -> exists err, dirEntryFromPlaceholder fs q = Err err.
Proof. intros H. unfold dirEntryFromPlaceholder. rewrite H. eauto. Qed.

Lemma dirEntryFromPlaceholder_decoded fs q c e :
  ioutil_ReadFile fs q = Some c -> json_Decode c = Some e ->
  dirEntryFromPlaceholder fs q = Ok e.
Proof. intros H1 H2. unfold dirEntryFromPlaceholder. now rewrite H1, H2. Qed.

Lemma Read_no_placeholder_node fs p :
  os_Lstat fs (p +:+ ShallowEntrySuffix) = None ->
  ReadShallowPlaceholder fs p =
  match os_Lstat fs p with
  | Some _ => Ok None
  | None => Err (ErrNotFound p)
  end.
Proof.
  intros H. unfold ReadShallowPlaceholder. rewrite H.
  apply Lstat_None_ReadFile, dirEntryFromPlaceholder_unreadable in H as [err ->].
  destruct (os_Lstat fs p); reflexivity.
Qed.

Lemma Read_placeholder_only fs p fi :
  os_Lstat fs p = None ->
  os_Lstat fs (p +:+ ShallowEntrySuffix) = Some fi ->
  ReadShallowPlaceholder fs p =
  match dirEntryFromPlaceholder fs (placeholder_content_path p fi) with
  | Ok de => Ok (Some de)
  | Err _ => Err (ErrNotFound p)
  end.
Proof.
  intros H1 H2. unfold ReadShallowPlaceholder, placeholder_content_path.
  rewrite H1, H2. reflexivity.
Qed.

Lemma Read_decodes fs p fi c e :
  os_Lstat fs p = None ->
  os_Lstat fs (p +:+ ShallowEntrySuffix) = Some fi ->
  ioutil_ReadFile fs (placeholder_content_path p fi) = Some c ->
  json_Decode c = Some e ->
  ReadShallowPlaceholder fs p = Ok (Some e).
Proof.
  intros H1 H2 H3 H4. rewrite (Read_placeholder_only _ _ _ H1 H2).
  now rewrite (dirEntryFromPlaceholder_decoded _ _ _ _ H3 H4).
Qed.

End Reader.

(** * The writer *)

Section Writer.

Implicit Types (fs : fsstate) (p : string) (e : DirEntry).

(** The two ways [WriteShallowPlaceholder] succeeds. *)
Lemma Write_inv fs p e fs' mp :
  WriteShallowPlaceholder fs p e = (fs', Ok mp) ->
  (Type_ e = EntryTypeFile /\ mp = p +:+ ShallowEntrySuffix /\
   atomic_WriteFile fs mp (json_Encode e) = Some fs') \/
  (Type_ e = EntryTypeDirectory /\
   mp = filepath_Join (p +:+ ShallowEntrySuffix) ShallowEntrySuffix /\
   exists fs1, os_MkdirAll fs (p +:+ ShallowEntrySuffix) = (fs1, true) /\
               atomic_WriteFile fs1 mp (json_Encode e) = Some fs').
Proof.
  unfold WriteShallowPlaceholder, placeholderPath.
  destruct (Type_ e); try discriminate.
  - destruct (atomic_WriteFile fs _ _) as [fs2|] eqn:HW; [|discriminate].
    intros [= <- <-]. left. auto.
  - destruct (os_MkdirAll fs _) as [fs1 [|]] eqn:HM; [|discriminate].
    destruct (atomic_WriteFile fs1 _ _) as [fs2|] eqn:HW; [|discriminate].
    intros [= <- <-]. right. eauto 6.
Qed.

(** After a successful write the node at [p + suffix] has the shape of the
    entry's type and the content file holds the encoded entry. *)
Lemma Write_post fs p e fs' mp :
  WriteShallowPlaceholder fs p e = (fs', Ok mp) ->
  exists fi,
    os_Lstat fs' (p +:+ ShallowEntrySuffix) = Some fi /\
    mp = placeholder_content_path p fi /\
    ioutil_ReadFile fs' mp = Some (json_Encode e).
Proof.
  intros H. apply Write_inv in H as [(Ht & -> & HW) | (Ht & -> & fs1 & HM & HW)].
  - exists {| IsDir := false |}. split; [|split].
    + apply (ReadFile_Lstat _ _ (json_Encode e)).
      exact (WriteFile_ReadFile _ _ _ _ HW).
    + reflexivity.
    + exact (WriteFile_ReadFile _ _ _ _ HW).
  - exists {| IsDir := true |}. split; [|split].
    + apply (WriteFile_Lstat_dir _ _ _ _ _ HW). exact (MkdirAll_Lstat _ _ _ HM).
    + reflexivity.
    + exact (WriteFile_ReadFile _ _ _ _ HW).
Qed.

(** A path with a trailing separator names the directory before it, and
    writing a Directory placeholder under such a path creates that directory:
    the real entry the reader then finds is of the writer's own making. *)
Remark Write_trailing_separator :
  os_Lstat ∅ "a/" = None /\
  os_Lstat (fst (WriteShallowPlaceholder ∅ "a/" (sample_entry EntryTypeDirectory)))
    "a/" = Some {| IsDir := true |} /\
  ReadShallowPlaceholder
    (fst (WriteShallowPlaceholder ∅ "a/" (sample_entry EntryTypeDirectory))) "a/"
  = Err (ErrCorrupt "a/" "a/.kopia-entry").
Proof. repeat split; vm_compute; reflexivity. Qed.

End Writer.

(** * Paths made of plain names *)

Section PlainPaths.

Local Open Scope list_scope.

Implicit Types (s e base : string) (l dirs : list string).

Lemma length_append s t :
  String.length (s +:+ t) = String.length s + String.length t.
Proof.
  induction s as [|c s IH]; [reflexivity|].
  rewrite append_cons. simpl. now rewrite IH.
Qed.

Lemma no_sep_append s t : no_sep (s +:+ t) = no_sep s && no_sep t.
Proof.
  induction s as [|c s IH]; [reflexivity|].
  rewrite append_cons. simpl. rewrite IH. now rewrite andb_assoc.
Qed.

Lemma split_sep_nonnil s : split_sep s <> [].
Proof.
  induction s as [|c s IH]; simpl; [discriminate|].
  destruct (Ascii.eqb c Separator); [discriminate|].
  destruct (split_sep s); [contradiction | discriminate].
Qed.

Lemma split_sep_no_sep e : no_sep e = true -> split_sep e = [e].
Proof.
  induction e as [|c e IH]; simpl; [reflexivity|].
  intros [Hc He]%andb_true_iff. apply negb_true_iff in Hc. rewrite Hc.
  now rewrite (IH He).
Qed.

Lemma split_sep_cons e s :
  no_sep e = true ->
  split_sep (e +:+ String Separator s) = e :: split_sep s.
Proof.
  induction e as [|c e IH].
  - intros _. reflexivity.
  - rewrite append_cons. simpl.
    intros [Hc He]%andb_true_iff. apply negb_true_iff in Hc. rewrite Hc.
    now rewrite (IH He).
Qed.

Lemma split_sep_join_sep l :
  l <> [] -> Forall (fun e => no_sep e = true) l ->
  split_sep (join_sep l) = l.
Proof.
  induction l as [|e l IH]; [congruence|].
  intros _ Hall. inversion Hall as [|? ? He Hl]; subst.
  destruct l as [|e' l'].
  - simpl. now apply split_sep_no_sep.
  - change (join_sep (e :: e' :: l'))
      with (e +:+ String Separator (join_sep (e' :: l'))).
    rewrite (split_sep_cons _ _ He). f_equal. now apply IH.
Qed.

Lemma join_sep_snoc l x y :
  join_sep (l ++ [x]) +:+ y = join_sep (l ++ [x +:+ y]).
Proof.
  induction l as [|e l IH]; [reflexivity|].
  destruct l as [|e' l'].
  - simpl. now rewrite append_assoc, append_cons.
  - change (join_sep ((e :: e' :: l') ++ [x]))
      with (e +:+ String Separator (join_sep ((e' :: l') ++ [x]))).
    change (join_sep ((e :: e' :: l') ++ [x +:+ y]))
      with (e +:+ String Separator (join_sep ((e' :: l') ++ [x +:+ y]))).
    rewrite append_assoc, append_cons. now rewrite IH.
Qed.

Lemma join_sep_snoc_elem l x y :
  join_sep (l ++ [x]) +:+ String Separator y = join_sep (l ++ [x; y]).
Proof.
  induction l as [|e l IH]; [reflexivity|].
  destruct l as [|e' l'].
  - simpl. now rewrite append_assoc, append_cons.
  - change (join_sep ((e :: e' :: l') ++ [x]))
      with (e +:+ String Separator (join_sep ((e' :: l') ++ [x]))).
    change (join_sep ((e :: e' :: l') ++ [x; y]))
      with (e +:+ String Separator (join_sep ((e' :: l') ++ [x; y]))).
    rewrite append_assoc, append_cons. now rewrite IH.
Qed.

(** The element loop keeps plain names as they come. *)
Lemma clean_elems_names rooted out l :
  Forall (fun e => is_name e = true) l ->
  clean_elems rooted out l = rev l ++ out.
Proof.
  revert out. induction l as [|e l IH]; intros out Hall; [reflexivity|].
  inversion Hall as [|? ? He Hl]; subst. simpl.
  unfold is_name in He.
  apply andb_true_iff in He as [[H1 H2]%andb_true_iff _].
  apply negb_true_iff in H1, H2. rewrite H1, H2.
  rewrite (IH _ Hl). now rewrite <- app_assoc.
Qed.

Lemma is_name_no_sep e : is_name e = true -> no_sep e = true.
Proof. unfold is_name. now intros [_ H]%andb_true_iff. Qed.

Lemma is_name_head e : is_name e = true -> exists c r, e = String c r.
Proof. destruct e as [|c r]; [discriminate | eauto]. Qed.

Lemma join_sep_head e l :
  is_name e = true -> exists c r, join_sep (e :: l) = String c r.
Proof.
  intros (c & r & ->)%is_name_head.
  destruct l; simpl; rewrite ?append_cons; eauto.
Qed.

(** filepath.Clean leaves a path of plain names as it is. *)
Lemma Clean_names rooted l :
  l <> [] -> Forall (fun e => is_name e = true) l ->
  filepath_Clean (root_prefix rooted +:+ join_sep l)
  = root_prefix rooted +:+ join_sep l.
Proof.
  intros Hne Hall.
  assert (Hsep : Forall (fun e => no_sep e = true) l).
  { eapply Forall_impl; [exact Hall|]. apply is_name_no_sep. }
  destruct l as [|e l']; [congruence|].
  inversion Hall as [|? ? He Hl]; subst.
  destruct (join_sep_head e l' He) as (c & r & Hj).
  assert (Hc : Ascii.eqb c Separator = false).
  { destruct (is_name_head e He) as (c' & r' & ->).
    assert (c = c') as ->
      by (destruct l'; simpl in Hj; rewrite ?append_cons in Hj; congruence).
    apply is_name_no_sep in He. simpl in He.
    apply andb_true_iff in He as [He _]. now apply negb_true_iff in He. }
  pose proof (split_sep_join_sep _ Hne Hsep) as Hsplit.
  set (J := join_sep (e :: l')) in *.
  unfold filepath_Clean. destruct rooted; simpl root_prefix.
  - rewrite append_cons, append_nil_l. simpl. rewrite Hsplit.
    rewrite (clean_elems_names _ _ _ Hall), app_nil_r, rev_involutive.
    reflexivity.
  - rewrite append_nil_l.
    assert (HJ : String.eqb J "" = false) by (rewrite Hj; reflexivity).
    assert (HR : is_rooted J = false) by (rewrite Hj; exact Hc).
    rewrite HJ, HR, Hsplit.
    rewrite (clean_elems_names _ _ _ Hall), app_nil_r, rev_involutive.
    fold J. now rewrite HJ.
Qed.

Lemma suffixed_is_name base :
  no_sep base = true -> is_name (base +:+ ShallowEntrySuffix) = true.
Proof.
  intros Hb. unfold is_name, is_empty_or_dot.
  rewrite no_sep_append, Hb.
  assert (Hlen : 12 <= String.length (base +:+ ShallowEntrySuffix)).
  { rewrite length_append. simpl. lia. }
  destruct (String.eqb_spec (base +:+ ShallowEntrySuffix) "") as [E|_];
    [rewrite E in Hlen; simpl in Hlen; lia|].
  destruct (String.eqb_spec (base +:+ ShallowEntrySuffix) ".") as [E|_];
    [rewrite E in Hlen; simpl in Hlen; lia|].
  destruct (String.eqb_spec (base +:+ ShallowEntrySuffix) "..") as [E|_];
    [rewrite E in Hlen; simpl in Hlen; lia|].
  reflexivity.
Qed.

(** On a path of plain names filepath.Join appends the separator and the
    suffix, nothing else. *)
Lemma Join_plain rooted dirs base :
  Forall (fun e => is_name e = true) dirs ->
  no_sep base = true ->
  let p := root_prefix rooted +:+ join_sep (dirs ++ [base]) in
  filepath_Join (p +:+ ShallowEntrySuffix) ShallowEntrySuffix
  = p +:+ ShallowEntrySuffix +:+ String Separator ShallowEntrySuffix.
Proof.
  intros Hdirs Hbase p. subst p.
  set (L := dirs ++ [base +:+ ShallowEntrySuffix; ShallowEntrySuffix]).
  assert (HL : (root_prefix rooted +:+ join_sep (dirs ++ [base]))
               +:+ ShallowEntrySuffix +:+ String Separator ShallowEntrySuffix
               = root_prefix rooted +:+ join_sep L).
  { rewrite append_assoc. f_equal. rewrite <- append_assoc.
    rewrite join_sep_snoc. apply join_sep_snoc_elem. }
  assert (Hne : (root_prefix rooted +:+ join_sep (dirs ++ [base]))
                +:+ ShallowEntrySuffix <> "").
  { intros E. apply (f_equal String.length) in E.
    rewrite length_append in E. simpl in E. lia. }
  unfold filepath_Join. apply String.eqb_neq in Hne. rewrite Hne. cbn [negb].
  rewrite (append_assoc _ ShallowEntrySuffix), HL.
  apply Clean_names.
  - subst L. now destruct dirs.
  - subst L. apply Forall_app. split; [exact Hdirs|].
    repeat constructor. now apply suffixed_is_name.
Qed.

End PlainPaths.

(** * filepath.Clean against path resolution *)

Section CleanResolves.

Local Open Scope list_scope.

Implicit Types (fs : fsstate) (k cur out elems l : list string) (s a : string).

Lemma split_sep_app a s :
  split_sep (a +:+ String Separator s) = split_sep a ++ split_sep s.
Proof.
  induction a as [|c a IH]; [reflexivity|].
  rewrite append_cons. simpl. destruct (Ascii.eqb c Separator).
  - now rewrite IH.
  - rewrite IH. pose proof (split_sep_nonnil a) as Hne.
    destruct (split_sep a); [contradiction | reflexivity].
Qed.

Lemma split_sep_elems_no_sep s : Forall (fun e => no_sep e = true) (split_sep s).
Proof.
  induction s as [|c s IH]; simpl; [repeat constructor|].
  destruct (Ascii.eqb c Separator) eqn:Hc; [now constructor|].
  destruct (split_sep s) as [|h t]; [repeat constructor; simpl; now rewrite Hc|].
  inversion IH as [|? ? Hh Ht]; subst. constructor; [|exact Ht].
  simpl. now rewrite Hc, Hh.
Qed.

Lemma walk_app fs cur l1 l2 :
  walk fs cur (l1 ++ l2) =
  match walk fs cur l1 with
  | Some k => walk fs k l2
  | None => None
  end.
Proof.
  revert cur. induction l1 as [|c l1 IH]; intros cur; simpl; [reflexivity|].
  destruct (is_dir fs cur); [|reflexivity].
  destruct (is_empty_or_dot c); [apply IH|].
  destruct (String.eqb c ".."); apply IH.
Qed.

Lemma is_name_not_special c :
  is_name c = true -> is_empty_or_dot c = false /\ String.eqb c ".." = false.
Proof.
  unfold is_name. intros [[H1 H2]%andb_true_iff _]%andb_true_iff.
  now apply negb_true_iff in H1, H2.
Qed.

(** Plain names below existing directories resolve to themselves. *)
Lemma walk_names fs k :
  Forall (fun e => is_name e = true) k -> dir_chain fs (tail k) ->
  walk fs [] (rev k) = Some k.
Proof.
  induction k as [|c k IH]; [reflexivity|].
  intros Hall Hchain. inversion Hall as [|? ? Hc Hk]; subst. simpl in *.
  rewrite walk_app, (IH Hk (dir_chain_tail _ _ Hchain)). simpl.
  rewrite (dir_chain_is_dir _ _ Hchain).
  destruct (is_name_not_special _ Hc) as [-> ->]. reflexivity.
Qed.

Lemma walk_dotdots fs dd :
  Forall (fun e => e = "..") dd -> walk fs [] dd = Some [].
Proof.
  induction dd as [|c dd IH]; [reflexivity|].
  intros Hall. inversion Hall as [|? ? Hc Hdd]; subst. simpl. now apply IH.
Qed.

(** The element loop of Clean follows the kernel's walk. *)
Lemma clean_elems_walk fs rooted elems out cur k :
  Forall (fun e => no_sep e = true) elems ->
  walk fs cur elems = Some k ->
  clean_agrees fs rooted out cur ->
  clean_agrees fs rooted (clean_elems rooted out elems) k.
Proof.
  intros Hsep. revert out cur.
  induction Hsep as [|c rest Hc Hrest IH]; intros out cur; simpl.
  - now intros [= <-].
  - destruct (is_dir fs cur) eqn:Hdir; [|discriminate].
    destruct (is_empty_or_dot c) eqn:Hsp; [apply IH|].
    destruct (String.eqb c "..") eqn:Hdd.
    + intros Hw (dd & -> & Hdds & Hroot & Hnames & Hchain).
      destruct cur as [|top cur'].
      * (* nothing to back out of *)
        simpl in *. destruct dd as [|d dd'].
        -- destruct rooted; apply (IH _ [] Hw).
           ++ exists []. repeat split; auto.
           ++ exists [".."]. repeat split; auto. discriminate.
        -- inversion Hdds as [|? ? Hd Hdd']; subst d. simpl.
           apply (IH _ [] Hw). exists (".." :: ".." :: dd').
           repeat split; auto.
           intros Hr. specialize (Hroot Hr). discriminate.
      * inversion Hnames as [|? ? Htop Hcur']; subst. simpl in *.
        destruct (is_name_not_special _ Htop) as [_ ->].
        apply (IH _ cur' Hw). exists dd. repeat split; auto.
        now apply dir_chain_tail.
    + intros Hw (dd & -> & Hdds & Hroot & Hnames & Hchain).
      apply (IH _ (c :: cur) Hw). exists dd. repeat split; auto.
      * constructor; [|exact Hnames]. unfold is_name. now rewrite Hsp, Hdd, Hc.
      * simpl. destruct cur; [exact I|]. split; [exact Hdir | exact Hchain].
Qed.

Lemma join_sep_nonempty l :
  l <> [] -> Forall (fun e => e <> "") l -> join_sep l <> "".
Proof.
  destruct l as [|e l]; [congruence|]. intros _ Hall.
  inversion Hall as [|? ? He _]; subst.
  destruct e as [|c e]; [congruence|].
  destruct l; simpl; rewrite ?append_cons; discriminate.
Qed.

(** Where a path resolves, its cleaned form resolves to the same place. *)
Lemma Clean_resolves fs s k :
  namei fs s = Some k -> namei fs (filepath_Clean s) = Some k.
Proof.
  unfold namei, filepath_Clean.
  destruct (String.eqb s "") eqn:Hs; [discriminate|]. intros Hw.
  assert (Hag : clean_agrees fs (is_rooted s)
                  (clean_elems (is_rooted s) [] (split_sep s)) k).
  { eapply clean_elems_walk; [apply split_sep_elems_no_sep | exact Hw |].
    exists []. repeat split; auto. }
  destruct Hag as (dd & Hout & Hdds & Hroot & Hnames & Hchain).
  rewrite Hout.
  assert (Hnosep : Forall (fun e => no_sep e = true) (rev (k ++ dd))).
  { apply Forall_rev, Forall_app. split.
    - eapply Forall_impl; [exact Hnames|]. apply is_name_no_sep.
    - eapply Forall_impl; [exact Hdds|]. now intros ? ->. }
  assert (Hwalk : walk fs [] (rev (k ++ dd)) = Some k).
  { rewrite rev_app_distr, walk_app, walk_dotdots by now apply Forall_rev.
    now apply walk_names. }
  destruct (is_rooted s).
  - simpl. rewrite (Hroot eq_refl), app_nil_r in *.
    destruct k as [|c k'].
    + reflexivity.
    + rewrite split_sep_join_sep; [exact Hwalk | | exact Hnosep].
      intros E. apply (f_equal (@length string)) in E.
      rewrite length_rev in E. discriminate.
  - destruct (k ++ dd) as [|e l] eqn:Hkd.
    + destruct k; [reflexivity | discriminate].
    + assert (Hne : rev (e :: l) <> []).
      { intros E. apply (f_equal (@length string)) in E.
        rewrite length_rev in E. discriminate. }
      assert (HJ : join_sep (rev (e :: l)) <> "").
      { apply join_sep_nonempty; [exact Hne|].
        apply Forall_rev. rewrite <- Hkd. apply Forall_app. split.
        - eapply Forall_impl; [exact Hnames|].
          intros x Hx ->. discriminate.
        - eapply Forall_impl; [exact Hdds|]. intros ? ->. discriminate. }
      apply String.eqb_neq in HJ. rewrite HJ, HJ.
      rewrite split_sep_join_sep; [exact Hwalk | exact Hne | exact Hnosep].
Qed.

(** filepath.Join of a directory and the suffix names the entry called
    [ShallowEntrySuffix] in that directory. *)
Lemma Join_resolves fs a k :
  namei fs a = Some k -> is_dir fs k = true ->
  namei fs (filepath_Join a ShallowEntrySuffix) = Some (ShallowEntrySuffix :: k).
Proof.
  intros Ha Hk. unfold filepath_Join.
  assert (Hne : String.eqb a "" = false).
  { unfold namei in Ha. destruct (String.eqb a ""); [discriminate | reflexivity]. }
  rewrite Hne. cbn [negb]. apply Clean_resolves.
  unfold namei in *. rewrite Hne in Ha.
  assert (Hne2 : String.eqb (a +:+ String Separator ShallowEntrySuffix) "" = false).
  { apply String.eqb_neq. intros E. apply (f_equal String.length) in E.
    rewrite length_append in E. simpl in E. lia. }
  rewrite Hne2, split_sep_app, walk_app, Ha. simpl. now rewrite Hk.
Qed.

End CleanResolves.

(** MkdirAll only adds to the state. *)
Lemma mkdir_walk_subseteq (fs : fsstate) cur elems fs' b :
  mkdir_walk fs cur elems = (fs', b) -> fs ⊆ fs'.
Proof.
  revert fs cur. induction elems as [|c rest IH]; intros fs cur; simpl.
  - now intros [= <- _].
  - destruct (is_empty_or_dot c); [apply IH|].
    destruct (String.eqb c ".."); [apply IH|].
    destruct (fs !! (c :: cur)) as [[d|]|] eqn:Hk.
    + now intros [= <- _].
    + apply IH.
    + intros H. etrans; [|exact (IH _ _ H)]. now apply insert_subseteq.
Qed.

Lemma MkdirAll_subseteq (fs : fsstate) path fs' b :
  os_MkdirAll fs path = (fs', b) -> fs ⊆ fs'.
Proof.
  unfold os_MkdirAll. destruct (String.eqb path "").
  - now intros [= <- _].
  - apply mkdir_walk_subseteq.
Qed.

(** * The encoder writes one well-formed object on one line *)

Section EncoderOutput.

Implicit Types (s t r rest : string) (c : ascii) (u : Decimal.uint).

Lemma scan_string_escape_char c t :
  (N_of_ascii c <? 128)%N = true ->
  scan_string (escape_char c +:+ t) = scan_string t.
Proof.
  destruct c as [[] [] [] [] [] [] [] []]; intros H;
    solve [discriminate H | reflexivity].
Qed.

(** A byte from 0x80 on stands for itself in a string literal. *)
Lemma scan_string_high c t :
  (128 <=? N_of_ascii c)%N = true -> scan_string (String c t) = scan_string t.
Proof.
  intros H. assert (H0 : (N_of_ascii c <? 128)%N = false) by byte_false.
  destruct (high_byte_plain _ H0) as (Hq & Hb & Hc).
  simpl. now rewrite Hq, Hb, Hc.
Qed.

Lemma scan_string_escape_seq3 b0 b1 b2 t :
  seq3 b0 b1 b2 = true ->
  scan_string (escape_seq (String b0 (String b1 (String b2 ""))) +:+ t)
  = scan_string t.
Proof.
  intros H. unfold escape_seq.
  destruct (String.eqb (String b0 (String b1 (String b2 ""))) line_separator);
    [reflexivity|].
  destruct (String.eqb (String b0 (String b1 (String b2 ""))) paragraph_separator);
    [reflexivity|].
  norm_app. rewrite !scan_string_high; [reflexivity | | |];
    apply N.leb_le; byte_facts; lia.
Qed.

Lemma scan_string_escape s r :
  scan_string (escape s +:+ String dquote r) = Some r.
Proof.
  unfold escape.
  induction s as [|b0 r0 H IH|b0 b1 r1 H IH|b0 b1 b2 r2 H IH|b0 b1 b2 b3 r3 H IH
                 |b0 r0 H Hs IH] using runes_ind.
  - reflexivity.
  - rewrite fold_runes_ascii by exact H.
    now rewrite append_assoc, scan_string_escape_char.
  - rewrite fold_runes_seq2 by exact H.
    rewrite escape_seq_other by (simpl; lia). norm_app.
    rewrite !scan_string_high; [exact IH | |]; apply N.leb_le; byte_facts; lia.
  - rewrite fold_runes_seq3 by exact H.
    now rewrite append_assoc, scan_string_escape_seq3.
  - rewrite fold_runes_seq4 by exact H.
    rewrite escape_seq_other by (simpl; lia). norm_app.
    rewrite !scan_string_high; [exact IH | | | |]; apply N.leb_le; byte_facts; lia.
  - rewrite (fold_runes_bad _ _ _ _ _ _ H Hs). rewrite append_assoc. exact IH.
Qed.

Lemma skip_digits_uint u rest :
  no_digit_head rest -> skip_digits (NilEmpty.string_of_uint u +:+ rest) = rest.
Proof.
  intros Hrest.
  induction u as [|u IH|u IH|u IH|u IH|u IH|u IH|u IH|u IH|u IH|u IH];
    simpl; rewrite ?append_cons; simpl; try exact IH.
  destruct rest as [|c r]; [reflexivity|]. simpl in *.
  unfold is_digit. now rewrite Hrest.
Qed.

Lemma scan_int_N (n : N) c r :
  closes_value c -> scan_int (json_N n +:+ String c r) = Some (String c r).
Proof.
  intros Hc. unfold json_N.
  assert (Hnd : no_digit_head (String c r)) by (destruct Hc; subst; reflexivity).
  destruct (unorm_fixpoint_shape _ (to_uint_normal n)) as [-> | Hshape].
  - reflexivity.
  - destruct (N.to_uint n) as [|u|u|u|u|u|u|u|u|u|u]; try contradiction;
      simpl NilEmpty.string_of_uint; rewrite ?append_cons; simpl;
      now rewrite skip_digits_uint.
Qed.

Lemma scan_number_tail c r :
  closes_value c ->
  match scan_frac (String c r) with
  | Some s3 => scan_exp s3
  | None => None
  end = Some (String c r).
Proof. intros [-> | ->]; reflexivity. Qed.

(** A value that starts with a digit or a minus sign is read as a number. *)
Ltac to_scan_number :=
  match goal with
  | |- scan_value (S _) ?s = ?rhs =>
      change (scan_number s = rhs); unfold scan_number;
      cbv beta iota zeta delta [Ascii.eqb Bool.eqb]
  end.

Lemma scan_value_N f (n : N) c r :
  closes_value c ->
  scan_value (S f) (json_N n +:+ String c r) = Some (String c r).
Proof.
  intros Hc. pose proof (scan_int_N n c r Hc) as Hint.
  pose proof (scan_number_tail c r Hc) as Htail.
  unfold json_N in *.
  destruct (N.to_uint n) as [|u|u|u|u|u|u|u|u|u|u];
    simpl NilEmpty.string_of_uint in *; rewrite ?append_cons in *;
    try (to_scan_number; rewrite Hint; exact Htail).
  rewrite append_nil_l in *. destruct Hc as [-> | ->]; discriminate.
Qed.

Lemma scan_value_Z f (z : Z) c r :
  closes_value c ->
  scan_value (S f) (json_Z z +:+ String c r) = Some (String c r).
Proof.
  intros Hc. unfold json_Z. destruct (z <? 0)%Z; [|now apply scan_value_N].
  pose proof (scan_int_N (Z.abs_N z) c r Hc) as Hint.
  pose proof (scan_number_tail c r Hc) as Htail.
  rewrite append_cons. to_scan_number. rewrite Hint. exact Htail.
Qed.

Lemma scan_value_quote f s c r :
  scan_value (S f) (json_quote s +:+ String c r) = Some (String c r).
Proof.
  unfold json_quote. rewrite append_cons, append_assoc, append_cons, append_nil_l.
  change (scan_string (escape s +:+ String dquote (String c r)) = Some (String c r)).
  apply scan_string_escape.
Qed.

Lemma skip_ws_quote s t : skip_ws (json_quote s +:+ t) = json_quote s +:+ t.
Proof. reflexivity. Qed.

Lemma skip_ws_N (n : N) t : skip_ws (json_N n +:+ t) = json_N n +:+ t.
Proof.
  destruct (json_N_head n) as (c & r & -> & Hd). rewrite append_cons.
  destruct c as [[] [] [] [] [] [] [] []]; try reflexivity; now elim Hd.
Qed.

Lemma skip_ws_Z (z : Z) t : skip_ws (json_Z z +:+ t) = json_Z z +:+ t.
Proof.
  unfold json_Z. destruct (z <? 0)%Z; [reflexivity | apply skip_ws_N].
Qed.

(** One member of an object: a key the encoder writes, its value [v], and
    what follows. *)
Lemma scan_members_step f name v c r :
  scan_string (name +:+ String dquote (String ":" (v +:+ String c r)))
    = Some (String ":" (v +:+ String c r)) ->
  skip_ws (v +:+ String c r) = v +:+ String c r ->
  scan_value f (v +:+ String c r) = Some (String c r) ->
  is_ws c = false ->
  scan_members (S f) (key name +:+ v +:+ String c r) =
  if Ascii.eqb c "," then scan_members f (skip_ws r)
  else if Ascii.eqb c "}" then Some r
  else None.
Proof.
  intros Hkey Hws Hval Hc. unfold key. norm_app.
  change (match scan_string (name +:+ String dquote (String ":" (v +:+ String c r))) with
          | Some r1 =>
              match skip_ws r1 with
              | String c2 r2 =>
                  if Ascii.eqb c2 ":" then
                    match scan_value f (skip_ws r2) with
                    | Some r3 =>
                        match skip_ws r3 with
                        | String c4 r4 =>
                            if Ascii.eqb c4 "," then scan_members f (skip_ws r4)
                            else if Ascii.eqb c4 "}" then Some r4
                            else None
                        | EmptyString => None
                        end
                    | None => None
                    end
                  else None
              | EmptyString => None
              end
          | None => None
          end = if Ascii.eqb c "," then scan_members f (skip_ws r)
                else if Ascii.eqb c "}" then Some r
                else None).
  rewrite Hkey.
  change (skip_ws (String ":" (v +:+ String c r))) with (String ":" (v +:+ String c r)).
  cbv beta iota. rewrite Ascii.eqb_refl, Hws, Hval.
  simpl skip_ws. rewrite Hc. reflexivity.
Qed.

(** The marshalled entry is one value, read to its end. *)
Lemma scan_value_Marshal f (de : DirEntry) rest :
  scan_value (8 + f) (json_Marshal de +:+ rest) = Some rest.
Proof.
  destruct de as [name et mode size mtime obj]. unfold json_Marshal.
  cbn [Name Type_ Permissions FileSize ModTime ObjectID].
  repeat rewrite append_assoc.
  rewrite append_cons, append_nil_l.
  change (scan_members (S (S (S (S (S (S (S f)))))))
            (key "name" +:+ json_quote name +:+ "," +:+
             key "type" +:+ json_quote (type_code et) +:+ "," +:+
             key "mode" +:+ json_N mode +:+ "," +:+
             key "size" +:+ json_Z size +:+ "," +:+
             key "mtime" +:+ json_Z mtime +:+ "," +:+
             key "obj" +:+ json_quote obj +:+ "}" +:+ rest) = Some rest).
  rewrite ?(append_cons ","), ?(append_cons "}"), ?append_nil_l.
  rewrite scan_members_step;
    [ | reflexivity | apply skip_ws_quote | apply scan_value_quote | reflexivity ].
  cbv beta iota delta [Ascii.eqb Bool.eqb].
  change (skip_ws (key "type" +:+ ?x)) with (key "type" +:+ x).
  rewrite scan_members_step;
    [ | reflexivity | apply skip_ws_quote | apply scan_value_quote | reflexivity ].
  cbv beta iota delta [Ascii.eqb Bool.eqb].
  change (skip_ws (key "mode" +:+ ?x)) with (key "mode" +:+ x).
  rewrite scan_members_step;
    [ | reflexivity | apply skip_ws_N | apply scan_value_N; now left | reflexivity ].
  cbv beta iota delta [Ascii.eqb Bool.eqb].
  change (skip_ws (key "size" +:+ ?x)) with (key "size" +:+ x).
  rewrite scan_members_step;
    [ | reflexivity | apply skip_ws_Z | apply scan_value_Z; now left | reflexivity ].
  cbv beta iota delta [Ascii.eqb Bool.eqb].
  change (skip_ws (key "mtime" +:+ ?x)) with (key "mtime" +:+ x).
  rewrite scan_members_step;
    [ | reflexivity | apply skip_ws_Z | apply scan_value_Z; now left | reflexivity ].
  cbv beta iota delta [Ascii.eqb Bool.eqb].
  change (skip_ws (key "obj" +:+ ?x)) with (key "obj" +:+ x).
  rewrite scan_members_step;
    [ | reflexivity | apply skip_ws_quote | apply scan_value_quote | reflexivity ].
  reflexivity.
Qed.

End EncoderOutput.

Section OneLine.

Implicit Types (s t : string) (c : ascii).

Lemma newline_free_append s t :
  newline_free (s +:+ t) = newline_free s && newline_free t.
Proof.
  induction s as [|c s IH]; [reflexivity|].
  rewrite append_cons. simpl. rewrite IH. now rewrite andb_assoc.
Qed.

Lemma newline_free_escape_char c : newline_free (escape_char c) = true.
Proof. destruct c as [[] [] [] [] [] [] [] []]; reflexivity. Qed.

Lemma newline_free_high c t :
  (128 <=? N_of_ascii c)%N = true ->
  newline_free (String c t) = newline_free t.
Proof.
  intros H. simpl.
  destruct (Ascii.eqb_spec c LF) as [->|_]; [discriminate H | reflexivity].
Qed.

Lemma newline_free_escape_seq3 b0 b1 b2 :
  seq3 b0 b1 b2 = true ->
  newline_free (escape_seq (String b0 (String b1 (String b2 "")))) = true.
Proof.
  intros H. unfold escape_seq.
  destruct (String.eqb (String b0 (String b1 (String b2 ""))) line_separator);
    [reflexivity|].
  destruct (String.eqb (String b0 (String b1 (String b2 ""))) paragraph_separator);
    [reflexivity|].
  rewrite !newline_free_high; [reflexivity | | |];
    apply N.leb_le; byte_facts; lia.
Qed.

Lemma newline_free_escape s : newline_free (escape s) = true.
Proof.
  unfold escape.
  induction s as [|b0 r0 H IH|b0 b1 r1 H IH|b0 b1 b2 r2 H IH|b0 b1 b2 b3 r3 H IH
                 |b0 r0 H Hs IH] using runes_ind.
  - reflexivity.
  - rewrite fold_runes_ascii by exact H.
    now rewrite newline_free_append, newline_free_escape_char, IH.
  - rewrite fold_runes_seq2 by exact H.
    rewrite escape_seq_other by (simpl; lia). norm_app.
    rewrite !newline_free_high; [exact IH | |]; apply N.leb_le; byte_facts; lia.
  - rewrite fold_runes_seq3 by exact H.
    now rewrite newline_free_append, newline_free_escape_seq3, IH.
  - rewrite fold_runes_seq4 by exact H.
    rewrite escape_seq_other by (simpl; lia). norm_app.
    rewrite !newline_free_high; [exact IH | | | |];
      apply N.leb_le; byte_facts; lia.
  - rewrite (fold_runes_bad _ _ _ _ _ _ H Hs).
    rewrite newline_free_append. now rewrite IH.
Qed.

Lemma newline_free_quote s : newline_free (json_quote s) = true.
Proof.
  unfold json_quote. simpl.
  now rewrite newline_free_append, newline_free_escape.
Qed.

Lemma newline_free_N (n : N) : newline_free (json_N n) = true.
Proof.
  unfold json_N. induction (N.to_uint n); simpl; auto.
Qed.

Lemma newline_free_Z (z : Z) : newline_free (json_Z z) = true.
Proof.
  unfold json_Z. destruct (z <? 0)%Z; simpl; apply newline_free_N.
Qed.

Lemma newline_free_Marshal (de : DirEntry) : newline_free (json_Marshal de) = true.
Proof.
  unfold json_Marshal.
  repeat rewrite newline_free_append.
  rewrite !newline_free_quote, !newline_free_Z, newline_free_N.
  reflexivity.
Qed.

Lemma is_json_object_Marshal (de : DirEntry) : is_json_object (json_Marshal de).
Proof.
  split.
  - unfold json_Marshal. rewrite append_cons. eauto.
  - assert (Hlen : exists f, String.length (json_Marshal de) = 8 + f).
    { unfold json_Marshal, key. norm_app. simpl. eauto. }
    destruct Hlen as [f ->].
    rewrite <- (append_nil_r (json_Marshal de)) at 1.
    apply scan_value_Marshal.
Qed.

End OneLine.

(** * The claims *)

(** C1, as stated, at a File entry whose name holds the byte 0xFF, which is
    no valid UTF-8: the write succeeds, no real entry is at the path, and the
    entry read back is another one, its name holding U+FFFD in the place of
    that byte. *)
Lemma read_after_write_invalid_utf8_counterexample :
  Type_ ill_named_entry = EntryTypeFile /\
  snd (WriteShallowPlaceholder ∅ "f1" ill_named_entry) = Ok "f1.kopia-entry" /\
  os_Lstat (fst (WriteShallowPlaceholder ∅ "f1" ill_named_entry)) "f1" = None /\
  exists e,
    ReadShallowPlaceholder (fst (WriteShallowPlaceholder ∅ "f1" ill_named_entry)) "f1"
    = Ok (Some e) /\
    Name e = "a" +:+ replacement +:+ "b" /\
    e <> ill_named_entry.
Proof.
  split; [reflexivity|].
  split; [vm_compute; reflexivity|].
  split; [vm_compute; reflexivity|].
  exists (stored_entry ill_named_entry).
  split; [vm_compute; reflexivity|].
  split; [reflexivity|].
  intros H. apply (f_equal Name) in H. vm_compute in H. discriminate H.
Qed.

(** C1, amended: a placeholder written by [WriteShallowPlaceholder] for a
    File or Directory entry whose name and object identifier are valid UTF-8
    is read back by [ReadShallowPlaceholder] as the very same entry, provided
    no real entry is found at the path when it is read. *)
Theorem read_after_write fs p e fs' mp :
  Type_ e = EntryTypeFile \/ Type_ e = EntryTypeDirectory ->
  utf8_ValidString (Name e) = true ->
  utf8_ValidString (ObjectID e) = true ->
  WriteShallowPlaceholder fs p e = (fs', Ok mp) ->
  os_Lstat fs' p = None ->
  ReadShallowPlaceholder fs' p = Ok (Some e).
Proof.
  intros _ Hname Hobj HW Hreal.
  apply Write_post in HW as (fi & Hst & -> & Hread).
  apply (Read_decodes _ _ _ _ _ Hreal Hst Hread).
  rewrite json_Decode_Encode. now rewrite stored_entry_valid.
Qed.

Lemma read_after_write_witness :
  ReadShallowPlaceholder
    (fst (WriteShallowPlaceholder ∅ "d1" (sample_entry EntryTypeDirectory))) "d1"
  = Ok (Some (sample_entry EntryTypeDirectory)).
Proof.
  apply (read_after_write ∅ "d1" (sample_entry EntryTypeDirectory)
           (fst (WriteShallowPlaceholder ∅ "d1" (sample_entry EntryTypeDirectory)))
           "d1.kopia-entry/.kopia-entry").
  - right. reflexivity.
  - reflexivity.
  - reflexivity.
  - reflexivity.
  - vm_compute. reflexivity.
Defined.

(** C2: when a real entry exists at a path and a node exists at the path
    with the placeholder suffix, [ReadShallowPlaceholder] returns the Corrupt
    error, and a snapshot of a tree that contains the path fails as a
    whole. *)
Theorem real_and_placeholder_corrupt fs p fi fi' :
  os_Lstat fs p = Some fi ->
  os_Lstat fs (p +:+ ShallowEntrySuffix) = Some fi' ->
  ReadShallowPlaceholder fs p = Err (ErrCorrupt p (p +:+ ShallowEntrySuffix)) /\
  forall tree, In p tree -> exists err, snapshot_create fs tree = Err err.
Proof.
  intros H1 H2. pose proof (Read_both _ _ _ _ H1 H2) as HR.
  split; [exact HR|].
  induction tree as [|q rest IH]; simpl; [easy|].
  intros [->|Hin].
  - rewrite HR. eauto.
  - destruct (ReadShallowPlaceholder fs q); [|eauto].
    destruct (IH Hin) as [err ->]. eauto.
Qed.

Lemma real_and_placeholder_corrupt_witness :
  ReadShallowPlaceholder torn_tree "src/f1"
    = Err (ErrCorrupt "src/f1" "src/f1.kopia-entry") /\
  forall tree, In "src/f1" tree ->
    exists err, snapshot_create torn_tree tree = Err err.
Proof.
  apply (real_and_placeholder_corrupt torn_tree "src/f1"
           {| IsDir := false |} {| IsDir := false |}).
  - vm_compute. reflexivity.
  - vm_compute. reflexivity.
Defined.

(** C3, as stated, at a File entry written to "f1": the content of the
    placeholder contains a newline character, and the JSON object in it is
    followed by one more byte. *)
Lemma placeholder_content_newline_counterexample :
  exists c,
    ioutil_ReadFile (fst (WriteShallowPlaceholder ∅ "f1" (sample_entry EntryTypeFile)))
      "f1.kopia-entry" = Some c /\
    newline_free c = false /\
    scan_value (String.length c) c = Some (String LF "") /\
    ~ (is_json_object c /\ newline_free c = true).
Proof.
  exists (json_Encode (sample_entry EntryTypeFile)).
  split; [vm_compute; reflexivity|].
  split; [vm_compute; reflexivity|].
  split; [vm_compute; reflexivity|].
  intros [_ H]. vm_compute in H. discriminate H.
Qed.

(** C3, amended: the content [WriteShallowPlaceholder] writes is the
    marshalled entry followed by exactly one newline character and nothing
    else; the marshalled entry is a single JSON object, read to its last
    byte, and holds no newline character. *)
Theorem placeholder_content_format fs p e fs' mp :
  WriteShallowPlaceholder fs p e = (fs', Ok mp) ->
  ioutil_ReadFile fs' mp = Some (json_Marshal e +:+ String LF "") /\
  is_json_object (json_Marshal e) /\
  newline_free (json_Marshal e) = true.
Proof.
  intros HW. apply Write_post in HW as (fi & _ & _ & Hread).
  split; [exact Hread|].
  split; [apply is_json_object_Marshal | apply newline_free_Marshal].
Qed.

Lemma placeholder_content_format_witness :
  ioutil_ReadFile
    (fst (WriteShallowPlaceholder ∅ "f1" (sample_entry EntryTypeFile)))
    "f1.kopia-entry"
  = Some (json_Marshal (sample_entry EntryTypeFile) +:+ String LF "") /\
  is_json_object (json_Marshal (sample_entry EntryTypeFile)) /\
  newline_free (json_Marshal (sample_entry EntryTypeFile)) = true.
Proof.
  apply (placeholder_content_format ∅ "f1" (sample_entry EntryTypeFile)
           (fst (WriteShallowPlaceholder ∅ "f1" (sample_entry EntryTypeFile)))
           "f1.kopia-entry").
  reflexivity.
Defined.

(** C4, as stated, at the path "a//b" and the type Directory: the path
    returned is the cleaned "a/b.kopia-entry/.kopia-entry", not the path with
    suffix, separator and suffix appended. *)
Lemma placeholderPath_unclean_counterexample :
  snd (placeholderPath ∅ "a//b" EntryTypeDirectory)
    = Ok "a/b.kopia-entry/.kopia-entry" /\
  snd (placeholderPath ∅ "a//b" EntryTypeDirectory)
    <> Ok ("a//b" +:+ ShallowEntrySuffix +:+ String Separator ShallowEntrySuffix).
Proof.
  split.
  - vm_compute. reflexivity.
  - vm_compute. discriminate.
Qed.

(** C4, amended: for a File entry [placeholderPath] returns the path with
    the suffix appended and touches nothing.  For a Directory entry it runs
    MkdirAll on the path with the suffix: the state only grows, and is left
    as it was when the directory exists already; on success the directory
    exists and the result is filepath.Join of that directory and the suffix,
    which names the entry called by the suffix inside that directory, and
    which for a path of plain names joined by single separators (rooted or
    not) is the path with suffix, separator and suffix appended; on failure
    the result is the wrapped error of MkdirAll.  For every other entry type
    it fails with the unsupported-entry-type error and touches nothing. *)
Theorem placeholderPath_by_type fs p :
  placeholderPath fs p EntryTypeFile = (fs, Ok (p +:+ ShallowEntrySuffix)) /\
  (forall fs' r,
     placeholderPath fs p EntryTypeDirectory = (fs', r) ->
     fs ⊆ fs' /\
     (os_Lstat fs (p +:+ ShallowEntrySuffix) = Some {| IsDir := true |} ->
      fs' = fs /\
      r = Ok (filepath_Join (p +:+ ShallowEntrySuffix) ShallowEntrySuffix)) /\
     match r with
     | Ok mp =>
         os_Lstat fs' (p +:+ ShallowEntrySuffix) = Some {| IsDir := true |} /\
         mp = filepath_Join (p +:+ ShallowEntrySuffix) ShallowEntrySuffix /\
         exists k, namei fs' (p +:+ ShallowEntrySuffix) = Some k /\
                   namei fs' mp = Some (ShallowEntrySuffix :: k)
     | Err err =>
         os_MkdirAll fs (p +:+ ShallowEntrySuffix) = (fs', false) /\
         err = ErrWrap (ErrMkdirAll (p +:+ ShallowEntrySuffix))
                 "placeholderPath dir creation"
     end) /\
  (forall rooted dirs base,
     Forall (fun e => is_name e = true) dirs ->
     no_sep base = true ->
     p = root_prefix rooted +:+ join_sep (dirs ++ [base])%list ->
     filepath_Join (p +:+ ShallowEntrySuffix) ShallowEntrySuffix
     = p +:+ ShallowEntrySuffix +:+ String Separator ShallowEntrySuffix) /\
  (forall et,
     et <> EntryTypeFile -> et <> EntryTypeDirectory ->
     placeholderPath fs p et = (fs, Err (ErrUnsupportedEntryType et))).
Proof.
  split; [reflexivity|]. split; [|split].
  - intros fs' r. unfold placeholderPath.
    destruct (os_MkdirAll fs (p +:+ ShallowEntrySuffix)) as [fs1 b] eqn:HM.
    pose proof (MkdirAll_subseteq _ _ _ _ HM) as Hsub.
    assert (Hex : os_Lstat fs (p +:+ ShallowEntrySuffix) = Some {| IsDir := true |} ->
                  fs1 = fs /\ b = true).
    { intros HL. rewrite (MkdirAll_existing _ _ HL) in HM. now inversion HM. }
    destruct b; intros [= <- <-].
    + split; [exact Hsub|]. split.
      * intros HL. destruct (Hex HL) as [-> _]. auto.
      * pose proof (MkdirAll_Lstat _ _ _ HM) as HL.
        split; [exact HL|]. split; [reflexivity|].
        unfold os_Lstat in HL.
        destruct (namei fs1 (p +:+ ShallowEntrySuffix)) as [k|] eqn:Hk;
          [|discriminate].
        exists k. split; [reflexivity|]. apply Join_resolves; [exact Hk|].
        unfold is_dir. destruct (node_at fs1 k) as [[c|]|]; try discriminate.
        reflexivity.
    + split; [exact Hsub|]. split.
      * intros HL. destruct (Hex HL) as [_ Hb]. discriminate.
      * auto.
  - intros rooted dirs base Hdirs Hbase ->. now apply Join_plain.
  - intros et H1 H2. destruct et; try reflexivity; contradiction.
Qed.

Lemma placeholderPath_by_type_witness :
  placeholderPath ∅ "src/f1" EntryTypeFile = (∅, Ok "src/f1.kopia-entry") /\
  os_Lstat (fst (placeholderPath ∅ "src/d1" EntryTypeDirectory)) "src/d1.kopia-entry"
    = Some {| IsDir := true |} /\
  snd (placeholderPath ∅ "src/d1" EntryTypeDirectory)
    = Ok ("src/d1" +:+ ShallowEntrySuffix +:+ String Separator ShallowEntrySuffix) /\
  placeholderPath ∅ "src/l1" EntryTypeSymlink
    = (∅, Err (ErrUnsupportedEntryType EntryTypeSymlink)).
Proof.
  split; [apply (placeholderPath_by_type ∅ "src/f1")|].
  destruct (placeholderPath_by_type ∅ "src/d1") as (_ & Hdir & Hplain & _).
  set (X := placeholderPath ∅ "src/d1" EntryTypeDirectory) in *.
  destruct (Hdir (fst X) (snd X)) as (_ & _ & Hr); [reflexivity|].
  assert (Hs : snd X = Ok "src/d1.kopia-entry/.kopia-entry")
    by (vm_compute; reflexivity).
  rewrite Hs in Hr |- *. destruct Hr as (Hstat & Hmp & _).
  split; [exact Hstat|]. split.
  - apply (f_equal Ok). rewrite Hmp.
    apply (Hplain false ["src"] "d1"); first [reflexivity | repeat constructor].
  - apply (placeholderPath_by_type ∅ "src/l1"); discriminate.
Defined.

(** C5: at a path with a real entry and no node under the placeholder
    suffix, [ReadShallowPlaceholder] returns nil without an error. *)
Theorem real_only_is_nil fs p fi :
  os_Lstat fs p = Some fi ->
  os_Lstat fs (p +:+ ShallowEntrySuffix) = None ->
  ReadShallowPlaceholder fs p = Ok None.
Proof.
  intros H1 H2. rewrite (Read_no_placeholder_node _ _ H2). now rewrite H1.
Qed.

Lemma real_only_is_nil_witness :
  ReadShallowPlaceholder (<[ ["f1"] := NFile "data" ]> ∅) "f1" = Ok None.
Proof.
  apply (real_only_is_nil _ "f1" {| IsDir := false |}).
  - vm_compute. reflexivity.
  - vm_compute. reflexivity.
Defined.

(** C6: at a path with neither a real entry nor a node under the
    placeholder suffix (hence none inside a directory there either),
    [ReadShallowPlaceholder] returns the NotFound error. *)
Theorem neither_is_not_found fs p :
  os_Lstat fs p = None ->
  os_Lstat fs (p +:+ ShallowEntrySuffix) = None ->
  ReadShallowPlaceholder fs p = Err (ErrNotFound p).
Proof.
  intros H1 H2. rewrite (Read_no_placeholder_node _ _ H2). now rewrite H1.
Qed.

Lemma neither_is_not_found_witness :
  ReadShallowPlaceholder (<[ ["other"] := NFile "data" ]> ∅) "f1"
  = Err (ErrNotFound "f1").
Proof.
  apply (neither_is_not_found _ "f1").
  - vm_compute. reflexivity.
  - vm_compute. reflexivity.
Defined.

(** C7: a placeholder-backed file or directory entry reports as its
    metadata what [ReadShallowPlaceholder] finds at its path, which is the
    entry decoded from its placeholder, and Open, Child and Readdir return a
    "not supported" error, never content. *)
Theorem placeholder_entry_metadata_only :
  (forall fs (fsf : shallowFilesystemFile),
     fsf_DirEntryOrNil fs fsf
     = ReadShallowPlaceholder fs (fullPath (fsf_entry fsf))) /\
  (forall fs (fsd : shallowFilesystemDirectory),
     fsd_DirEntryOrNil fs fsd
     = ReadShallowPlaceholder fs (fullPath (fsd_entry fsd))) /\
  (forall fs (fsf : shallowFilesystemFile) fi c e,
     os_Lstat fs (fullPath (fsf_entry fsf)) = None ->
     os_Lstat fs (fullPath (fsf_entry fsf) +:+ ShallowEntrySuffix) = Some fi ->
     ioutil_ReadFile fs (placeholder_content_path (fullPath (fsf_entry fsf)) fi)
       = Some c ->
     json_Decode c = Some e ->
     fsf_DirEntryOrNil fs fsf = Ok (Some e)) /\
  (forall fs (fsd : shallowFilesystemDirectory) fi c e,
     os_Lstat fs (fullPath (fsd_entry fsd)) = None ->
     os_Lstat fs (fullPath (fsd_entry fsd) +:+ ShallowEntrySuffix) = Some fi ->
     ioutil_ReadFile fs (placeholder_content_path (fullPath (fsd_entry fsd)) fi)
       = Some c ->
     json_Decode c = Some e ->
     fsd_DirEntryOrNil fs fsd = Ok (Some e)) /\
  (forall fsf,
     fsf_Open fsf = Err (ErrNotSupported "shallowFilesystemFile.Open")) /\
  (forall fsd name,
     fsd_Child fsd name
     = Err (ErrNotSupported "shallowFilesystemDirectory.Child")) /\
  (forall fsd,
     fsd_Readdir fsd
     = Err (ErrNotSupported "shallowFilesystemDirectory.Readdir")).
Proof.
  split; [reflexivity|]. split; [reflexivity|].
  split; [intros fs fsf fi c e H1 H2 H3 H4; exact (Read_decodes _ _ _ _ _ H1 H2 H3 H4)|].
  split; [intros fs fsd fi c e H1 H2 H3 H4; exact (Read_decodes _ _ _ _ _ H1 H2 H3 H4)|].
  split; [reflexivity|]. split; reflexivity.
Qed.

Lemma placeholder_entry_metadata_only_witness :
  fsf_DirEntryOrNil shallow_tree {| fsf_entry := {| fullPath := "f1" |} |}
    = Ok (Some (sample_entry EntryTypeFile)) /\
  fsd_DirEntryOrNil shallow_tree {| fsd_entry := {| fullPath := "d1" |} |}
    = Ok (Some (sample_entry EntryTypeDirectory)) /\
  fsf_Open {| fsf_entry := {| fullPath := "f1" |} |}
    = Err (ErrNotSupported "shallowFilesystemFile.Open") /\
  fsd_Child {| fsd_entry := {| fullPath := "d1" |} |} "child"
    = Err (ErrNotSupported "shallowFilesystemDirectory.Child") /\
  fsd_Readdir {| fsd_entry := {| fullPath := "d1" |} |}
    = Err (ErrNotSupported "shallowFilesystemDirectory.Readdir").
Proof.
  destruct placeholder_entry_metadata_only
    as (_ & _ & Hfile & Hdir & Hopen & Hchild & Hreaddir).
  split; [|split; [|split; [|split]]].
  - apply (Hfile shallow_tree _ {| IsDir := false |}
             (json_Encode (sample_entry EntryTypeFile)));
      vm_compute; reflexivity.
  - apply (Hdir shallow_tree _ {| IsDir := true |}
             (json_Encode (sample_entry EntryTypeDirectory)));
      vm_compute; reflexivity.
  - apply Hopen.
  - apply Hchild.
  - apply Hreaddir.
Defined.

(** C9: with a real entry present, the Corrupt error is raised for any node
    whatever found under the placeholder suffix: the node is not opened, so an
    empty file, a directory without a content file or a file that does not
    decode raise it like a valid placeholder does. *)
Theorem corrupt_for_any_node fs p fi k n :
  os_Lstat fs p = Some fi ->
  namei fs (p +:+ ShallowEntrySuffix) = Some k ->
  node_at fs k = Some n ->
  ReadShallowPlaceholder fs p = Err (ErrCorrupt p (p +:+ ShallowEntrySuffix)).
Proof.
  intros H1 H2 H3. apply (Read_both _ _ fi (info_of n)); [exact H1|].
  unfold os_Lstat. now rewrite H2, H3.
Qed.

Lemma corrupt_for_any_node_witness :
  ReadShallowPlaceholder (<[ ["f1.kopia-entry"] := NFile "" ]> real_file) "f1"
    = Err (ErrCorrupt "f1" "f1.kopia-entry") /\
  ReadShallowPlaceholder (<[ ["f1.kopia-entry"] := NDir ]> real_file) "f1"
    = Err (ErrCorrupt "f1" "f1.kopia-entry") /\
  ReadShallowPlaceholder (<[ ["f1.kopia-entry"] := NFile "not json" ]> real_file) "f1"
    = Err (ErrCorrupt "f1" "f1.kopia-entry").
Proof.
  split; [|split].
  - apply (corrupt_for_any_node _ "f1" {| IsDir := false |}
             ["f1.kopia-entry"] (NFile "")); vm_compute; reflexivity.
  - apply (corrupt_for_any_node _ "f1" {| IsDir := false |}
             ["f1.kopia-entry"] NDir); vm_compute; reflexivity.
  - apply (corrupt_for_any_node _ "f1" {| IsDir := false |}
             ["f1.kopia-entry"] (NFile "not json")); vm_compute; reflexivity.
Defined.

(** C10: without a real entry, a node under the placeholder suffix whose
    content does not decode makes [ReadShallowPlaceholder] return the NotFound
    error, the same result it returns when no placeholder node exists at
    all. *)
Theorem undecodable_is_not_found fs p fi :
  os_Lstat fs p = None ->
  os_Lstat fs (p +:+ ShallowEntrySuffix) = Some fi ->
  (forall c, ioutil_ReadFile fs (placeholder_content_path p fi) = Some c ->
             json_Decode c = None) ->
  ReadShallowPlaceholder fs p = Err (ErrNotFound p) /\
  forall fs0,
    os_Lstat fs0 p = None ->
    os_Lstat fs0 (p +:+ ShallowEntrySuffix) = None ->
    ReadShallowPlaceholder fs0 p = ReadShallowPlaceholder fs p.
Proof.
  intros H1 H2 Hbad.
  assert (HR : ReadShallowPlaceholder fs p = Err (ErrNotFound p)).
  { rewrite (Read_placeholder_only _ _ _ H1 H2). unfold dirEntryFromPlaceholder.
    destruct (ioutil_ReadFile fs (placeholder_content_path p fi)) as [c|] eqn:Hc;
      [|reflexivity].
    now rewrite (Hbad c eq_refl). }
  split; [exact HR|].
  intros fs0 H01 H02. rewrite HR, (Read_no_placeholder_node _ _ H02).
  now rewrite H01.
Qed.

Lemma undecodable_is_not_found_witness :
  ReadShallowPlaceholder (<[ ["f1.kopia-entry"] := NFile "" ]> ∅) "f1"
    = Err (ErrNotFound "f1") /\
  forall fs0,
    os_Lstat fs0 "f1" = None ->
    os_Lstat fs0 "f1.kopia-entry" = None ->
    ReadShallowPlaceholder fs0 "f1"
    = ReadShallowPlaceholder (<[ ["f1.kopia-entry"] := NFile "" ]> ∅) "f1".
Proof.
  apply (undecodable_is_not_found _ "f1" {| IsDir := false |}).
  - vm_compute. reflexivity.
  - vm_compute. reflexivity.
  - intros c Hc.
    assert (Hempty : Some "" = Some c) by exact Hc.
    injection Hempty as <-. reflexivity.
Defined.

(** * Further properties of the reader *)

Section ReaderResults.

Implicit Types (fs : fsstate) (p : string) (e : DirEntry).

Lemma dirEntryFromPlaceholder_Ok_inv fs q e :
  dirEntryFromPlaceholder fs q = Ok e ->
  exists c, ioutil_ReadFile fs q = Some c /\ json_Decode c = Some e.
Proof.
  unfold dirEntryFromPlaceholder.
  destruct (ioutil_ReadFile fs q) as [c|]; [|discriminate].
  destruct (json_Decode c) as [e'|] eqn:Hd; [|discriminate].
  intros [= <-]. eauto.
Qed.

(** X1: [ReadShallowPlaceholder] returns an entry exactly when no real entry
    exists at the path, a node exists under the placeholder suffix, and the
    content file of that node decodes to the entry.  In particular it never
    returns an entry for a path at which a real entry exists. *)
Theorem Read_entry_iff fs p e :
  ReadShallowPlaceholder fs p = Ok (Some e) <->
  os_Lstat fs p = None /\
  exists fi c,
    os_Lstat fs (p +:+ ShallowEntrySuffix) = Some fi /\
    ioutil_ReadFile fs (placeholder_content_path p fi) = Some c /\
    json_Decode c = Some e.
Proof.
  split.
  - destruct (os_Lstat fs p) as [fi0|] eqn:H1.
    + destruct (os_Lstat fs (p +:+ ShallowEntrySuffix)) as [fi|] eqn:H2.
      * rewrite (Read_both _ _ _ _ H1 H2). discriminate.
      * rewrite (Read_no_placeholder_node _ _ H2), H1. discriminate.
    + destruct (os_Lstat fs (p +:+ ShallowEntrySuffix)) as [fi|] eqn:H2.
      * rewrite (Read_placeholder_only _ _ _ H1 H2).
        destruct (dirEntryFromPlaceholder fs (placeholder_content_path p fi))
          as [de|err] eqn:Hd; [|discriminate].
        intros [= ->]. split; [reflexivity|].
        apply dirEntryFromPlaceholder_Ok_inv in Hd as (c & Hc & He). eauto.
      * rewrite (Read_no_placeholder_node _ _ H2), H1. discriminate.
  - intros (H1 & fi & c & H2 & H3 & H4). exact (Read_decodes _ _ _ _ _ H1 H2 H3 H4).
Qed.

(** X2: [ReadShallowPlaceholder] returns the Corrupt error exactly when both
    a real entry and a node under the placeholder suffix exist, and the error
    names these two paths. *)
Theorem Read_corrupt_iff fs p a b :
  ReadShallowPlaceholder fs p = Err (ErrCorrupt a b) <->
  (a = p /\ b = p +:+ ShallowEntrySuffix /\
   os_Lstat fs p <> None /\ os_Lstat fs (p +:+ ShallowEntrySuffix) <> None).
Proof.
  split.
  - destruct (os_Lstat fs p) as [fi0|] eqn:H1;
      destruct (os_Lstat fs (p +:+ ShallowEntrySuffix)) as [fi|] eqn:H2.
    + rewrite (Read_both _ _ _ _ H1 H2). intros [= <- <-]. now repeat split.
    + rewrite (Read_no_placeholder_node _ _ H2), H1. discriminate.
    + rewrite (Read_placeholder_only _ _ _ H1 H2).
      destruct (dirEntryFromPlaceholder _ _); discriminate.
    + rewrite (Read_no_placeholder_node _ _ H2), H1. discriminate.
  - intros (-> & -> & H1 & H2).
    destruct (os_Lstat fs p) as [fi0|] eqn:E1; [|congruence].
    destruct (os_Lstat fs (p +:+ ShallowEntrySuffix)) as [fi|] eqn:E2; [|congruence].
    exact (Read_both _ _ _ _ E1 E2).
Qed.

(** X3: [ReadShallowPlaceholder] returns nil without an error exactly when a
    real entry exists at the path and no node exists under the placeholder
    suffix. *)
Theorem Read_nil_iff fs p :
  ReadShallowPlaceholder fs p = Ok None <->
  (os_Lstat fs p <> None /\ os_Lstat fs (p +:+ ShallowEntrySuffix) = None).
Proof.
  split.
  - destruct (os_Lstat fs p) as [fi0|] eqn:H1;
      destruct (os_Lstat fs (p +:+ ShallowEntrySuffix)) as [fi|] eqn:H2.
    + rewrite (Read_both _ _ _ _ H1 H2). discriminate.
    + intros _. split; congruence.
    + rewrite (Read_placeholder_only _ _ _ H1 H2).
      destruct (dirEntryFromPlaceholder _ _); discriminate.
    + rewrite (Read_no_placeholder_node _ _ H2), H1. discriminate.
  - intros [H1 H2]. rewrite (Read_no_placeholder_node _ _ H2).
    destruct (os_Lstat fs p); congruence.
Qed.

(** X4: whatever goes wrong, [ReadShallowPlaceholder] returns one of two
    errors, Corrupt or NotFound for its path: the errors of reading and of
    decoding that [dirEntryFromPlaceholder] wraps never reach the caller. *)
Theorem Read_error_kinds fs p err :
  ReadShallowPlaceholder fs p = Err err ->
  err = ErrCorrupt p (p +:+ ShallowEntrySuffix) \/ err = ErrNotFound p.
Proof.
  destruct (os_Lstat fs p) as [fi0|] eqn:H1;
    destruct (os_Lstat fs (p +:+ ShallowEntrySuffix)) as [fi|] eqn:H2.
  - rewrite (Read_both _ _ _ _ H1 H2). intros [= <-]. now left.
  - rewrite (Read_no_placeholder_node _ _ H2), H1. discriminate.
  - rewrite (Read_placeholder_only _ _ _ H1 H2).
    destruct (dirEntryFromPlaceholder _ _); [discriminate|].
    intros [= <-]. now right.
  - rewrite (Read_no_placeholder_node _ _ H2), H1. intros [= <-]. now right.
Qed.

Lemma Read_error_kinds_witness :
  ErrNotFound "f1" = ErrCorrupt "f1" ("f1" +:+ ShallowEntrySuffix) \/
  ErrNotFound "f1" = ErrNotFound "f1".
Proof.
  apply (Read_error_kinds (<[ ["f1.kopia-entry"] := NFile "not json" ]> ∅) "f1").
  vm_compute. reflexivity.
Defined.

End ReaderResults.

(** * Further properties of the writer *)

Section WriterResults.

Local Open Scope list_scope.

Implicit Types (fs : fsstate) (p : string) (e : DirEntry)
  (k cur elems : list string).

Lemma Lstat_dir_ReadFile fs path :
  os_Lstat fs path = Some {| IsDir := true |} -> ioutil_ReadFile fs path = None.
Proof.
  intros HL. destruct (ioutil_ReadFile fs path) as [c|] eqn:HR; [|reflexivity].
  apply ReadFile_Lstat in HR. congruence.
Qed.

Lemma walk_node_start fs cur elems k n :
  walk fs cur elems = Some k -> node_at fs k = Some n -> node_at fs cur <> None.
Proof.
  destruct elems as [|c rest]; simpl.
  - intros [= ->] ->. discriminate.
  - destruct (is_dir fs cur) eqn:Hd; [|discriminate]. intros _ _.
    apply is_dir_node in Hd. congruence.
Qed.

(** MkdirAll on a path that is a regular file fails and changes nothing. *)
Lemma mkdir_walk_on_file fs cur elems k c :
  dir_chain fs cur ->
  walk fs cur elems = Some k -> node_at fs k = Some (NFile c) ->
  mkdir_walk fs cur elems = (fs, false).
Proof.
  revert cur. induction elems as [|x rest IH]; intros cur Hchain; simpl.
  - intros [= ->] Hk. apply dir_chain_is_dir, is_dir_node in Hchain. congruence.
  - destruct (is_dir fs cur) eqn:Hd; [|discriminate].
    destruct (is_empty_or_dot x); [now apply IH|].
    destruct (String.eqb x ".."); [apply IH; now apply dir_chain_tail|].
    intros Hw Hk. pose proof (walk_node_start _ _ _ _ _ Hw Hk) as Hn.
    simpl in Hn. destruct (fs !! (x :: cur)) as [[d|]|] eqn:Hx.
    + reflexivity.
    + apply IH; [|exact Hw|exact Hk]. split; [|exact Hchain].
      unfold is_dir, node_at. now rewrite Hx.
    + congruence.
Qed.

Lemma MkdirAll_on_file fs path :
  os_Lstat fs path = Some {| IsDir := false |} ->
  os_MkdirAll fs path = (fs, false).
Proof.
  unfold os_MkdirAll, os_Lstat, namei.
  destruct (String.eqb path ""); [reflexivity|].
  destruct (walk fs [] (split_sep path)) as [k|] eqn:Hw; [|discriminate].
  destruct (node_at fs k) as [[c|]|] eqn:Hk; try discriminate.
  intros _. exact (mkdir_walk_on_file fs [] _ k c I Hw Hk).
Qed.

(** What MkdirAll adds are directories. *)
Lemma mkdir_walk_adds_dirs fs cur elems fs' b k n :
  mkdir_walk fs cur elems = (fs', b) ->
  fs' !! k = Some n -> fs !! k = Some n \/ n = NDir.
Proof.
  revert fs cur. induction elems as [|x rest IH]; intros fs cur; simpl.
  - intros [= <- _]. auto.
  - destruct (is_empty_or_dot x); [apply IH|].
    destruct (String.eqb x ".."); [apply IH|].
    destruct (fs !! (x :: cur)) as [[d|]|] eqn:Hx.
    + intros [= <- _]. auto.
    + apply IH.
    + intros H Hk. destruct (IH _ _ H Hk) as [Hin|Hd]; [|now right].
      destruct (decide (k = x :: cur)) as [->|Hne].
      * rewrite lookup_insert_eq in Hin. right. congruence.
      * rewrite lookup_insert_ne in Hin by congruence. now left.
Qed.

Lemma MkdirAll_adds_dirs fs path fs' b k n :
  os_MkdirAll fs path = (fs', b) ->
  fs' !! k = Some n -> fs !! k = Some n \/ n = NDir.
Proof.
  unfold os_MkdirAll. destruct (String.eqb path "").
  - intros [= <- _]. auto.
  - apply mkdir_walk_adds_dirs.
Qed.

(** The ways [WriteShallowPlaceholder] fails. *)
Lemma Write_Err_inv fs p e fs' err :
  WriteShallowPlaceholder fs p e = (fs', Err err) ->
  (Type_ e <> EntryTypeFile /\ Type_ e <> EntryTypeDirectory /\ fs' = fs) \/
  (Type_ e = EntryTypeFile /\ fs' = fs /\
   atomic_WriteFile fs (p +:+ ShallowEntrySuffix) (json_Encode e) = None) \/
  (Type_ e = EntryTypeDirectory /\
   exists b, os_MkdirAll fs (p +:+ ShallowEntrySuffix) = (fs', b)).
Proof.
  unfold WriteShallowPlaceholder, placeholderPath.
  destruct (Type_ e).
  - intros [= <- _]. left. repeat split; discriminate.
  - destruct (atomic_WriteFile fs _ _) as [fs2|] eqn:HW; [discriminate|].
    intros [= <- _]. right. left. auto.
  - destruct (os_MkdirAll fs _) as [fs1 [|]] eqn:HM.
    + destruct (atomic_WriteFile fs1 _ _) as [fs2|] eqn:HW; [discriminate|].
      intros [= <- _]. right. right. eauto.
    + intros [= <- _]. right. right. eauto.
  - intros [= <- _]. left. repeat split; discriminate.
Qed.

(** X5: after a successful write the node under the placeholder suffix
    stats as a directory for a Directory entry and as a regular file for a
    File entry, the path returned is that of the content file, and
    [dirEntryFromPlaceholder] reads from the path returned the entry as it
    was stored (the entry written, with the bytes of its name and object
    identifier that are no valid UTF-8 replaced by U+FFFD), whether or not a
    real entry exists beside it. *)
Theorem Write_shape fs p e fs' mp :
  WriteShallowPlaceholder fs p e = (fs', Ok mp) ->
  os_Lstat fs' (p +:+ ShallowEntrySuffix)
    = Some {| IsDir := is_Directory (Type_ e) |} /\
  mp = placeholder_content_path p {| IsDir := is_Directory (Type_ e) |} /\
  dirEntryFromPlaceholder fs' mp = Ok (stored_entry e).
Proof.
  intros H.
  assert (Hread : ioutil_ReadFile fs' mp = Some (json_Encode e)).
  { apply Write_post in H as (fi & _ & _ & Hr). exact Hr. }
  assert (Hde : dirEntryFromPlaceholder fs' mp = Ok (stored_entry e)).
  { apply (dirEntryFromPlaceholder_decoded _ _ _ _ Hread), json_Decode_Encode. }
  apply Write_inv in H as [(Ht & -> & HW) | (Ht & -> & fs1 & HM & HW)];
    rewrite Ht; simpl is_Directory.
  - split; [|split; [reflexivity | exact Hde]].
    apply (ReadFile_Lstat _ _ (json_Encode e)). exact Hread.
  - split; [|split; [reflexivity | exact Hde]].
    apply (WriteFile_Lstat_dir _ _ _ _ _ HW). exact (MkdirAll_Lstat _ _ _ HM).
Qed.

Lemma Write_shape_witness :
  os_Lstat (fst (WriteShallowPlaceholder real_file "f1" (sample_entry EntryTypeDirectory)))
    "f1.kopia-entry" = Some {| IsDir := true |} /\
  "f1.kopia-entry/.kopia-entry"
    = placeholder_content_path "f1" {| IsDir := true |} /\
  dirEntryFromPlaceholder
    (fst (WriteShallowPlaceholder real_file "f1" (sample_entry EntryTypeDirectory)))
    "f1.kopia-entry/.kopia-entry"
  = Ok (stored_entry (sample_entry EntryTypeDirectory)).
Proof.
  apply (Write_shape real_file "f1" (sample_entry EntryTypeDirectory)).
  reflexivity.
Defined.

Lemma WriteFile_namei_after fs path data fs' :
  atomic_WriteFile fs path data = Some fs' ->
  exists k, namei fs' path = Some k /\ namei fs path = Some k /\
            is_dir fs k = false /\ k <> [] /\ fs' = <[k := NFile data]> fs.
Proof.
  intros H. pose proof (WriteFile_same_dirs _ _ _ _ H) as Hsame.
  apply WriteFile_inv in H as (k & Hn & Hk & Hne & ->).
  exists k. rewrite (namei_same_dirs _ _ _ Hsame). auto.
Qed.

(** Writing a file a second time is like writing it once, and succeeds. *)
Lemma WriteFile_twice fs path d1 d2 fs1 :
  atomic_WriteFile fs path d1 = Some fs1 ->
  exists fs2,
    atomic_WriteFile fs path d2 = Some fs2 /\
    atomic_WriteFile fs1 path d2 = Some fs2.
Proof.
  intros H. apply WriteFile_namei_after in H as (k & Hn1 & Hn & Hk & Hne & ->).
  unfold atomic_WriteFile. rewrite Hn1, Hn.
  destruct k as [|x k']; [congruence|]. unfold is_dir in Hk. simpl in *.
  rewrite lookup_insert_eq, insert_insert_eq.
  destruct (fs !! (x :: k')) as [[c|]|]; try discriminate; eauto.
Qed.

Lemma Write_again fs p e1 e2 fs1 mp :
  WriteShallowPlaceholder fs p e1 = (fs1, Ok mp) ->
  Type_ e2 = Type_ e1 ->
  WriteShallowPlaceholder fs1 p e2 = WriteShallowPlaceholder fs p e2.
Proof.
  intros H Ht.
  apply Write_inv in H as [(Ht1 & -> & HW) | (Ht1 & -> & fsA & HM & HW)];
    unfold WriteShallowPlaceholder, placeholderPath; rewrite Ht, Ht1.
  - destruct (WriteFile_twice _ _ _ (json_Encode e2) _ HW) as (fs2 & -> & ->).
    reflexivity.
  - rewrite HM.
    rewrite (MkdirAll_existing fs1 (p +:+ ShallowEntrySuffix)).
    + destruct (WriteFile_twice _ _ _ (json_Encode e2) _ HW) as (fs2 & -> & ->).
      reflexivity.
    + apply (WriteFile_Lstat_dir _ _ _ _ _ HW). exact (MkdirAll_Lstat _ _ _ HM).
Qed.

(** X6: a placeholder written over a placeholder of the same type replaces
    it altogether, leaving the state a single write of the later entry would
    leave; and writing the same entry again changes nothing. *)
Theorem Write_overwrite fs p e1 e2 fs1 mp :
  WriteShallowPlaceholder fs p e1 = (fs1, Ok mp) ->
  Type_ e2 = Type_ e1 ->
  WriteShallowPlaceholder fs1 p e2 = WriteShallowPlaceholder fs p e2 /\
  WriteShallowPlaceholder fs1 p e1 = (fs1, Ok mp).
Proof.
  intros H Ht. split.
  - exact (Write_again _ _ _ _ _ _ H Ht).
  - rewrite (Write_again _ _ _ e1 _ _ H eq_refl). exact H.
Qed.

Lemma Write_overwrite_witness :
  WriteShallowPlaceholder
    (fst (WriteShallowPlaceholder ∅ "f1" (sample_entry EntryTypeFile))) "f1" later_entry
  = WriteShallowPlaceholder ∅ "f1" later_entry /\
  WriteShallowPlaceholder
    (fst (WriteShallowPlaceholder ∅ "f1" (sample_entry EntryTypeFile))) "f1"
    (sample_entry EntryTypeFile)
  = (fst (WriteShallowPlaceholder ∅ "f1" (sample_entry EntryTypeFile)),
     Ok "f1.kopia-entry").
Proof.
  apply (Write_overwrite ∅ "f1" (sample_entry EntryTypeFile) later_entry);
    reflexivity.
Defined.

(** X7: a successful write disturbs nothing else: every node that existed
    before, other than the content file at the path returned, is still there
    unchanged, and every node that is new, other than that content file, is a
    directory. *)
Theorem Write_frame fs p e fs' mp :
  WriteShallowPlaceholder fs p e = (fs', Ok mp) ->
  (forall k n, fs !! k = Some n -> namei fs' mp <> Some k -> fs' !! k = Some n) /\
  (forall k n, fs' !! k = Some n -> namei fs' mp <> Some k ->
               fs !! k = Some n \/ n = NDir).
Proof.
  intros H.
  apply Write_inv in H as [(Ht & -> & HW) | (Ht & -> & fsA & HM & HW)].
  - apply WriteFile_namei_after in HW as (kw & Hn' & _ & _ & _ & ->).
    rewrite Hn'. split; intros k n Hk Hne.
    + rewrite lookup_insert_ne by congruence. exact Hk.
    + rewrite lookup_insert_ne in Hk by congruence. now left.
  - pose proof (MkdirAll_subseteq _ _ _ _ HM) as Hsub.
    apply WriteFile_namei_after in HW as (kw & Hn' & _ & _ & _ & ->).
    rewrite Hn'. split; intros k n Hk Hne.
    + rewrite lookup_insert_ne by congruence.
      exact (lookup_weaken _ _ _ _ Hk Hsub).
    + rewrite lookup_insert_ne in Hk by congruence.
      exact (MkdirAll_adds_dirs _ _ _ _ _ _ HM Hk).
Qed.

Lemma Write_frame_witness :
  (forall k n,
     real_file !! k = Some n ->
     namei (fst (WriteShallowPlaceholder real_file "d1" (sample_entry EntryTypeDirectory)))
       "d1.kopia-entry/.kopia-entry" <> Some k ->
     fst (WriteShallowPlaceholder real_file "d1" (sample_entry EntryTypeDirectory)) !! k
     = Some n) /\
  (forall k n,
     fst (WriteShallowPlaceholder real_file "d1" (sample_entry EntryTypeDirectory)) !! k
     = Some n ->
     namei (fst (WriteShallowPlaceholder real_file "d1" (sample_entry EntryTypeDirectory)))
       "d1.kopia-entry/.kopia-entry" <> Some k ->
     real_file !! k = Some n \/ n = NDir).
Proof.
  apply (Write_frame real_file "d1" (sample_entry EntryTypeDirectory)).
  reflexivity.
Defined.

(** X8: a write that fails leaves no file behind and changes none: the
    state is untouched unless the entry is a Directory, and then all it may
    have gained are directories made by MkdirAll before the failure. *)
Theorem Write_failure_clean fs p e fs' err :
  WriteShallowPlaceholder fs p e = (fs', Err err) ->
  fs ⊆ fs' /\
  (forall k n, fs' !! k = Some n -> fs !! k = Some n \/ n = NDir) /\
  (Type_ e <> EntryTypeDirectory -> fs' = fs).
Proof.
  intros H.
  apply Write_Err_inv in H
    as [(_ & _ & ->) | [(_ & -> & _) | (Ht & b & HM)]]; try (now auto).
  split; [exact (MkdirAll_subseteq _ _ _ _ HM)|]. split.
  - intros k n. exact (MkdirAll_adds_dirs _ _ _ _ _ _ HM).
  - congruence.
Qed.

Lemma Write_failure_clean_witness :
  file_in_the_way
    ⊆ fst (WriteShallowPlaceholder file_in_the_way "a/d1" (sample_entry EntryTypeDirectory)) /\
  (forall k n,
     fst (WriteShallowPlaceholder file_in_the_way "a/d1" (sample_entry EntryTypeDirectory))
       !! k = Some n ->
     file_in_the_way !! k = Some n \/ n = NDir) /\
  (Type_ (sample_entry EntryTypeDirectory) <> EntryTypeDirectory ->
   fst (WriteShallowPlaceholder file_in_the_way "a/d1" (sample_entry EntryTypeDirectory))
   = file_in_the_way).
Proof.
  apply (Write_failure_clean file_in_the_way "a/d1" (sample_entry EntryTypeDirectory) _
           (ErrWrap (ErrWrap (ErrMkdirAll "a/d1.kopia-entry")
                       "placeholderPath dir creation")
              "computing placeholder path")).
  reflexivity.
Defined.

(** X9: a placeholder does not change shape in place.  Where a regular file
    stands under the placeholder suffix, writing a Directory entry fails in
    MkdirAll; where a directory stands there, writing a File entry fails in
    the write of the file; either way the state is left as it was. *)
Theorem Write_shape_conflict fs p e :
  (os_Lstat fs (p +:+ ShallowEntrySuffix) = Some {| IsDir := false |} ->
   Type_ e = EntryTypeDirectory ->
   WriteShallowPlaceholder fs p e
   = (fs, Err (ErrWrap (ErrWrap (ErrMkdirAll (p +:+ ShallowEntrySuffix))
                          "placeholderPath dir creation")
                 "computing placeholder path"))) /\
  (os_Lstat fs (p +:+ ShallowEntrySuffix) = Some {| IsDir := true |} ->
   Type_ e = EntryTypeFile ->
   WriteShallowPlaceholder fs p e
   = (fs, Err (ErrWrap (ErrWriteFile (p +:+ ShallowEntrySuffix))
                 "error writing placeholder"))).
Proof.
  split; intros HL Ht; unfold WriteShallowPlaceholder, placeholderPath; rewrite Ht.
  - now rewrite (MkdirAll_on_file _ _ HL).
  - assert (HW : atomic_WriteFile fs (p +:+ ShallowEntrySuffix) (json_Encode e) = None).
    { unfold atomic_WriteFile, os_Lstat in *.
      destruct (namei fs (p +:+ ShallowEntrySuffix)) as [k|]; [|reflexivity].
      destruct (node_at fs k) as [[c|]|]; try discriminate. reflexivity. }
    now rewrite HW.
Qed.

Lemma Write_shape_conflict_witness :
  WriteShallowPlaceholder
    (fst (WriteShallowPlaceholder ∅ "x" (sample_entry EntryTypeFile))) "x"
    (sample_entry EntryTypeDirectory)
  = (fst (WriteShallowPlaceholder ∅ "x" (sample_entry EntryTypeFile)),
     Err (ErrWrap (ErrWrap (ErrMkdirAll ("x" +:+ ShallowEntrySuffix))
                     "placeholderPath dir creation")
            "computing placeholder path")) /\
  WriteShallowPlaceholder
    (fst (WriteShallowPlaceholder ∅ "x" (sample_entry EntryTypeDirectory))) "x"
    (sample_entry EntryTypeFile)
  = (fst (WriteShallowPlaceholder ∅ "x" (sample_entry EntryTypeDirectory)),
     Err (ErrWrap (ErrWriteFile ("x" +:+ ShallowEntrySuffix))
            "error writing placeholder")).
Proof.
  split.
  - apply (Write_shape_conflict _ "x" (sample_entry EntryTypeDirectory));
      [vm_compute; reflexivity | reflexivity].
  - apply (Write_shape_conflict _ "x" (sample_entry EntryTypeFile));
      [vm_compute; reflexivity | reflexivity].
Defined.

(** ** A write where nothing was before *)

Lemma split_sep_append s t :
  no_sep t = true ->
  exists init c,
    split_sep s = init ++ [c] /\ split_sep (s +:+ t) = init ++ [c +:+ t].
Proof.
  intros Ht. induction s as [|x s (init & c & Hs & Hst)].
  - exists [], "". split; [reflexivity|].
    rewrite append_nil_l. now apply split_sep_no_sep.
  - rewrite append_cons. simpl. rewrite Hs, Hst.
    destruct (Ascii.eqb x Separator).
    + exists ("" :: init), c. split; reflexivity.
    + destruct init as [|h tl]; simpl.
      * exists [], (String x c). split; reflexivity.
      * exists (String x h :: tl), c. split; reflexivity.
Qed.

Lemma walk_dir_chain fs cur elems k :
  dir_chain fs (tail cur) -> walk fs cur elems = Some k -> dir_chain fs (tail k).
Proof.
  revert cur. induction elems as [|c rest IH]; intros cur Hchain; simpl.
  - now intros [= <-].
  - destruct (is_dir fs cur) eqn:Hd; [|discriminate].
    destruct (is_empty_or_dot c); [now apply IH|].
    destruct (String.eqb c ".."); [apply IH; now apply dir_chain_tail|].
    apply IH. simpl. destruct cur; [exact I | now split].
Qed.

Lemma walk_mono fs fs' cur elems k :
  (forall x, is_dir fs x = true -> is_dir fs' x = true) ->
  walk fs cur elems = Some k -> walk fs' cur elems = Some k.
Proof.
  intros Hmono. revert cur.
  induction elems as [|c rest IH]; intros cur; simpl; [easy|].
  destruct (is_dir fs cur) eqn:Hd; [|discriminate]. rewrite (Hmono _ Hd).
  destruct (is_empty_or_dot c); [apply IH|].
  destruct (String.eqb c ".."); apply IH.
Qed.

Lemma MkdirAll_mono fs path fs' b x :
  os_MkdirAll fs path = (fs', b) -> is_dir fs x = true -> is_dir fs' x = true.
Proof.
  unfold os_MkdirAll. destruct (String.eqb path "").
  - now intros [= <- _].
  - apply mkdir_walk_mono.
Qed.

Lemma Write_dirs_mono fs p e fs' mp x :
  WriteShallowPlaceholder fs p e = (fs', Ok mp) ->
  is_dir fs x = true -> is_dir fs' x = true.
Proof.
  intros H Hx.
  apply Write_inv in H as [(_ & _ & HW) | (_ & _ & fsA & HM & HW)].
  - now rewrite (WriteFile_same_dirs _ _ _ _ HW x).
  - rewrite (WriteFile_same_dirs _ _ _ _ HW x). exact (MkdirAll_mono _ _ _ _ _ HM Hx).
Qed.

(** Along directories that exist MkdirAll only walks. *)
Lemma mkdir_walk_app_existing fs cur l1 l2 k :
  walk fs cur l1 = Some k -> is_dir fs k = true ->
  mkdir_walk fs cur (l1 ++ l2) = mkdir_walk fs k l2.
Proof.
  revert cur. induction l1 as [|c rest IH]; intros cur; simpl.
  - now intros [= ->].
  - destruct (is_dir fs cur); [|discriminate].
    destruct (is_empty_or_dot c); [apply IH|].
    destruct (String.eqb c ".."); [apply IH|].
    intros Hw Hk. pose proof (walk_is_dir_start _ _ _ _ Hw Hk) as Hd.
    apply is_dir_node in Hd. simpl in Hd. rewrite Hd. now apply IH.
Qed.

Lemma append_suffix_neq (c : string) : c <> c +:+ ShallowEntrySuffix.
Proof.
  intros E. apply (f_equal String.length) in E.
  rewrite length_append in E. simpl in E. lia.
Qed.

(** Where the directory that is to hold [p] exists and nothing is at [p],
    a successful write leaves nothing at [p]. *)
Lemma Write_keeps_absent fs p e fs' mp kp :
  namei fs p = Some kp -> node_at fs kp = None ->
  WriteShallowPlaceholder fs p e = (fs', Ok mp) ->
  os_Lstat fs' p = None.
Proof.
  intros Hn Hnode HW.
  assert (Hp : String.eqb p "" = false).
  { unfold namei in Hn. destruct (String.eqb p ""); [discriminate | reflexivity]. }
  assert (Hps : String.eqb (p +:+ ShallowEntrySuffix) "" = false).
  { apply String.eqb_neq. intros E. apply (f_equal String.length) in E.
    rewrite length_append in E. simpl in E. lia. }
  destruct (split_sep_append p ShallowEntrySuffix eq_refl) as (init & c & Hs & Hss).
  assert (Hcsep : no_sep c = true).
  { pose proof (split_sep_elems_no_sep p) as Hall. rewrite Hs in Hall.
    apply Forall_app in Hall as [_ Hc]. now inversion Hc. }
  pose proof (suffixed_is_name c Hcsep) as Hname.
  destruct (is_name_not_special _ Hname) as [Hn1 Hn2].
  unfold namei in Hn. rewrite Hp, Hs, walk_app in Hn.
  destruct (walk fs [] init) as [kpar|] eqn:Hinit; [|discriminate].
  pose proof (walk_dir_chain fs [] init kpar I Hinit) as Hchain.
  simpl in Hn. destruct (is_dir fs kpar) eqn:Hdpar; [|discriminate].
  assert (Hkp : is_empty_or_dot c = false /\ String.eqb c ".." = false /\
                kp = c :: kpar).
  { destruct (is_empty_or_dot c).
    - injection Hn as <-. apply is_dir_node in Hdpar. congruence.
    - destruct (String.eqb c "..").
      + injection Hn as <-. apply dir_chain_is_dir, is_dir_node in Hchain.
        congruence.
      + injection Hn as <-. auto. }
  destruct Hkp as (Hc1 & Hc2 & ->). simpl in Hnode.
  (* the path with the suffix resolves next to [p] wherever the parent is *)
  assert (Hres : forall fsx, walk fsx [] init = Some kpar -> is_dir fsx kpar = true ->
                 namei fsx (p +:+ ShallowEntrySuffix)
                 = Some ((c +:+ ShallowEntrySuffix) :: kpar)).
  { intros fsx Hw Hd. unfold namei. rewrite Hps, Hss, walk_app, Hw. simpl.
    now rewrite Hd, Hn1, Hn2. }
  assert (Hmono : forall x, is_dir fs x = true -> is_dir fs' x = true).
  { intros x. exact (Write_dirs_mono _ _ _ _ _ x HW). }
  assert (Hnp : namei fs' p = Some (c :: kpar)).
  { unfold namei. rewrite Hp, Hs, walk_app, (walk_mono _ _ _ _ _ Hmono Hinit).
    simpl. now rewrite (Hmono _ Hdpar), Hc1, Hc2. }
  unfold os_Lstat. rewrite Hnp. simpl.
  enough (Hgone : fs' !! (c :: kpar) = None) by now rewrite Hgone.
  apply Write_inv in HW as [(_ & -> & HWf) | (_ & -> & fsA & HM & HWf)].
  - apply WriteFile_namei_after in HWf as (kw & _ & Hkw & _ & _ & ->).
    rewrite (Hres fs Hinit Hdpar) in Hkw. injection Hkw as <-.
    rewrite lookup_insert_ne; [exact Hnode|].
    intros [= E]. symmetry in E. now apply append_suffix_neq in E.
  - assert (HA : fsA !! (c :: kpar) = None).
    { unfold os_MkdirAll in HM. rewrite Hps, Hss in HM.
      rewrite (mkdir_walk_app_existing _ _ _ _ _ Hinit Hdpar) in HM.
      simpl in HM. rewrite Hn1, Hn2 in HM.
      destruct (fs !! ((c +:+ ShallowEntrySuffix) :: kpar)) as [[d|]|];
        try (injection HM as <-; exact Hnode); try discriminate.
      injection HM as <-. rewrite lookup_insert_ne; [exact Hnode|].
      intros [= E]. symmetry in E. now apply append_suffix_neq in E. }
    assert (HmA : forall x, is_dir fs x = true -> is_dir fsA x = true).
    { intros x. exact (MkdirAll_mono _ _ _ _ x HM). }
    pose proof (Hres fsA (walk_mono _ _ _ _ _ HmA Hinit) (HmA _ Hdpar)) as HnA.
    pose proof (MkdirAll_Lstat _ _ _ HM) as HLA.
    unfold os_Lstat in HLA. rewrite HnA in HLA.
    assert (HdA : is_dir fsA ((c +:+ ShallowEntrySuffix) :: kpar) = true).
    { unfold is_dir. destruct (node_at fsA _) as [[d|]|]; try discriminate.
      reflexivity. }
    pose proof (Join_resolves _ _ _ HnA HdA) as HJ.
    apply WriteFile_namei_after in HWf as (kw & _ & Hkw & _ & _ & ->).
    rewrite HJ in Hkw. injection Hkw as <-.
    rewrite lookup_insert_ne; [exact HA|].
    intros E. apply (f_equal (@List.length string)) in E. simpl in E. lia.
Qed.

(** X10: the round trip from the state before the write.  If the directory
    that is to hold the path exists, nothing is at the path, and
    [WriteShallowPlaceholder] succeeds, then [ReadShallowPlaceholder] returns
    the entry as it was stored (the entry written, with the bytes of its name
    and object identifier that are no valid UTF-8 replaced by U+FFFD): the
    write itself puts no real entry at the path. *)
Theorem read_after_fresh_write fs p e fs' mp kp :
  namei fs p = Some kp -> node_at fs kp = None ->
  WriteShallowPlaceholder fs p e = (fs', Ok mp) ->
  ReadShallowPlaceholder fs' p = Ok (Some (stored_entry e)).
Proof.
  intros Hn Hnode HW.
  pose proof (Write_keeps_absent _ _ _ _ _ _ Hn Hnode HW) as Habs.
  apply Write_post in HW as (fi & Hst & -> & Hread).
  exact (Read_decodes _ _ _ _ _ Habs Hst Hread (json_Decode_Encode e)).
Qed.

Lemma read_after_fresh_write_witness :
  ReadShallowPlaceholder
    (fst (WriteShallowPlaceholder restore_root "dest/d1" (sample_entry EntryTypeDirectory)))
    "dest/d1"
  = Ok (Some (stored_entry (sample_entry EntryTypeDirectory))).
Proof.
  apply (read_after_fresh_write restore_root "dest/d1"
           (sample_entry EntryTypeDirectory)
           (fst (WriteShallowPlaceholder restore_root "dest/d1"
                   (sample_entry EntryTypeDirectory)))
           "dest/d1.kopia-entry/.kopia-entry" ["d1"; "dest"]).
  - vm_compute. reflexivity.
  - vm_compute. reflexivity.
  - reflexivity.
Defined.

End WriterResults.

(** * Trailing data in a placeholder *)

Section TrailingData.

(** X11: [dirEntryFromPlaceholder] decodes one JSON value and never looks at
    what follows it, so a placeholder file whose content is an encoded entry
    followed by anything at all is read as that entry, as it was stored (its
    strings made valid UTF-8 by the encoder). *)
Theorem Read_ignores_trailing_data fs p fi e junk :
  os_Lstat fs p = None ->
  os_Lstat fs (p +:+ ShallowEntrySuffix) = Some fi ->
  ioutil_ReadFile fs (placeholder_content_path p fi)
    = Some (json_Encode e +:+ junk) ->
  ReadShallowPlaceholder fs p = Ok (Some (stored_entry e)).
Proof.
  intros Habs Hst Hread.
  apply (Read_decodes _ _ _ _ _ Habs Hst Hread).
  unfold json_Encode. rewrite append_assoc. apply json_Decode_Marshal.
Qed.

Lemma Read_ignores_trailing_data_witness :
  ReadShallowPlaceholder
    (<[ ["f1.kopia-entry"] :=
          NFile (json_Encode (sample_entry EntryTypeFile) +:+ "}} not JSON") ]> ∅)
    "f1"
  = Ok (Some (stored_entry (sample_entry EntryTypeFile))).
Proof.
  apply (Read_ignores_trailing_data _ "f1" {| IsDir := false |}
           (sample_entry EntryTypeFile) "}} not JSON");
    reflexivity.
Defined.

End TrailingData.

(** * Suffixes and restore.PathIfPlaceholder *)

Section Suffixes.

Lemma substring_all (t : string) : substring 0 (String.length t) t = t.
Proof. induction t as [|c t IH]; simpl; congruence. Qed.

Lemma substring_skip (q t : string) (n : nat) :
  substring (String.length q) n (q +:+ t) = substring 0 n t.
Proof.
  induction q as [|c q IH]; [now rewrite append_nil_l|].
  rewrite append_cons. simpl. exact IH.
Qed.

Lemma substring_split (s : string) (n : nat) :
  n <= String.length s ->
  s = substring 0 n s +:+ substring n (String.length s - n) s.
Proof.
  revert n. induction s as [|c s IH]; intros [|n] Hn; simpl in *.
  - reflexivity.
  - lia.
  - now rewrite append_nil_l, substring_all.
  - rewrite append_cons. f_equal. apply IH. lia.
Qed.

Lemma HasSuffix_app (q suffix : string) :
  strings_HasSuffix (q +:+ suffix) suffix = true.
Proof.
  unfold strings_HasSuffix. rewrite length_append.
  apply andb_true_intro. split.
  - apply Nat.leb_le. lia.
  - replace (String.length q + String.length suffix - String.length suffix)
      with (String.length q) by lia.
    rewrite substring_skip, substring_all. apply String.eqb_refl.
Qed.

Lemma HasSuffix_inv (s suffix : string) :
  strings_HasSuffix s suffix = true -> exists q, s = q +:+ suffix.
Proof.
  unfold strings_HasSuffix. intros H.
  apply andb_prop in H as [Hlen Heq].
  apply Nat.leb_le in Hlen. apply String.eqb_eq in Heq.
  exists (substring 0 (String.length s - String.length suffix) s).
  assert (Hn : String.length s - String.length suffix <= String.length s) by lia.
  pose proof (substring_split s _ Hn) as Hs.
  replace (String.length s - (String.length s - String.length suffix))
    with (String.length suffix) in Hs by lia.
  now rewrite Heq in Hs.
Qed.

Lemma HasSuffix_longer (s a b : string) :
  strings_HasSuffix s b = false -> strings_HasSuffix s (a +:+ b) = false.
Proof.
  intros H. destruct (strings_HasSuffix s (a +:+ b)) eqn:E; [|reflexivity].
  apply HasSuffix_inv in E as [q ->].
  rewrite <- append_assoc, HasSuffix_app in H. discriminate.
Qed.

(** X12: [PathIfPlaceholder] hands a path that ends in the placeholder suffix
    to the trimming function, and answers the empty string for every other
    path; such a path comes back unchanged only if it is the empty path
    itself. *)
Theorem PathIfPlaceholder_result (trim : string -> string) (path : string) :
  (PathIfPlaceholder trim path = trim path /\
   exists q, path = q +:+ ShallowEntrySuffix) \/
  (PathIfPlaceholder trim path = "" /\
   (forall q, path <> q +:+ ShallowEntrySuffix) /\
   (PathIfPlaceholder trim path = path <-> path = "")).
Proof.
  unfold PathIfPlaceholder.
  destruct (strings_HasSuffix path ShallowEntrySuffix) eqn:E.
  - left. split; [reflexivity | now apply HasSuffix_inv].
  - right. split; [reflexivity|]. split.
    + intros q ->. rewrite HasSuffix_app in E. discriminate.
    + split; congruence.
Qed.

End Suffixes.

(** * The helpers of the end-to-end test against the writer *)

Section TestHelpers.

Local Open Scope list_scope.

Lemma walk_suffix fs k :
  walk fs k [ShallowEntrySuffix]
  = if is_dir fs k then Some (ShallowEntrySuffix :: k) else None.
Proof. unfold walk. destruct (is_dir fs k); reflexivity. Qed.

(** The placeholder suffix as one more path element. *)
Lemma namei_sub fs d :
  namei fs (d +:+ String Separator ShallowEntrySuffix) =
  match walk fs [] (split_sep d) with
  | Some k => if is_dir fs k then Some (ShallowEntrySuffix :: k) else None
  | None => None
  end.
Proof.
  unfold namei.
  assert (String.eqb (d +:+ String Separator ShallowEntrySuffix) "" = false) as ->.
  { apply String.eqb_neq. intros E. apply (f_equal String.length) in E.
    rewrite length_append in E. simpl in E. lia. }
  rewrite split_sep_app.
  change (split_sep ShallowEntrySuffix) with [ShallowEntrySuffix].
  rewrite walk_app.
  destruct (walk fs [] (split_sep d)); [apply walk_suffix | reflexivity].
Qed.

Lemma namei_walk fs d : d <> "" -> walk fs [] (split_sep d) = namei fs d.
Proof. intros H. unfold namei. apply String.eqb_neq in H. now rewrite H. Qed.

Lemma suffixed_nonempty (p : string) : p +:+ ShallowEntrySuffix <> "".
Proof.
  intros E. apply (f_equal String.length) in E.
  rewrite length_append in E. simpl in E. lia.
Qed.

Lemma dIRPH_path (p : string) :
  p +:+ dIRPH = (p +:+ ShallowEntrySuffix) +:+ String Separator ShallowEntrySuffix.
Proof. unfold dIRPH. now rewrite append_assoc. Qed.

Lemma Lstat_dir_inv fs d :
  os_Lstat fs d = Some {| IsDir := true |} ->
  exists k, namei fs d = Some k /\ is_dir fs k = true.
Proof.
  unfold os_Lstat, is_dir. destruct (namei fs d) as [k|]; [|discriminate].
  destruct (node_at fs k) as [[c|]|] eqn:Hnode; try discriminate.
  intros _. exists k. now rewrite Hnode.
Qed.

Lemma ReadFile_inv fs d c :
  ioutil_ReadFile fs d = Some c ->
  exists k, namei fs d = Some k /\ node_at fs k = Some (NFile c).
Proof.
  unfold ioutil_ReadFile. destruct (namei fs d) as [k|]; [|discriminate].
  destruct (node_at fs k) as [[c'|]|] eqn:Hnode; try discriminate.
  intros [= ->]. now exists k.
Qed.

(** After a file placeholder is written, the placeholder path is a regular
    file and nothing can be under it. *)
Lemma Write_File_after fs p e fs' mp :
  WriteShallowPlaceholder fs p e = (fs', Ok mp) -> Type_ e = EntryTypeFile ->
  ioutil_ReadFile fs' (p +:+ ShallowEntrySuffix) = Some (json_Encode e) /\
  os_Lstat fs' (p +:+ dIRPH) = None.
Proof.
  intros HW HT.
  destruct (Write_inv _ _ _ _ _ HW) as [(_ & -> & HWf) | (HT' & _)];
    [|congruence].
  pose proof (WriteFile_ReadFile _ _ _ _ HWf) as Hread.
  split; [exact Hread|].
  apply ReadFile_inv in Hread as (k & Hk & Hnode).
  unfold os_Lstat. rewrite dIRPH_path, namei_sub.
  rewrite (namei_walk _ _ (suffixed_nonempty p)), Hk.
  unfold is_dir. now rewrite Hnode.
Qed.

(** After a directory placeholder is written, the placeholder path is a
    directory and the entry is in the file under it. *)
Lemma Write_Dir_after fs p e fs' mp :
  WriteShallowPlaceholder fs p e = (fs', Ok mp) -> Type_ e = EntryTypeDirectory ->
  os_Lstat fs' (p +:+ ShallowEntrySuffix) = Some {| IsDir := true |} /\
  ioutil_ReadFile fs' (p +:+ dIRPH) = Some (json_Encode e).
Proof.
  intros HW HT.
  destruct (Write_post _ _ _ _ _ HW) as (_ & _ & _ & Hread).
  destruct (Write_inv _ _ _ _ _ HW) as [(HT' & _) | (_ & -> & fs1 & HM & HWf)];
    [congruence|].
  pose proof (WriteFile_Lstat_dir _ _ _ _ _ HWf (MkdirAll_Lstat _ _ _ HM)) as Hdir.
  split; [exact Hdir|].
  destruct (Lstat_dir_inv _ _ Hdir) as (k & Hk & Hkd).
  pose proof (Join_resolves _ _ _ Hk Hkd) as HJ.
  unfold ioutil_ReadFile in *. rewrite HJ in Hread.
  rewrite dIRPH_path, namei_sub.
  rewrite (namei_walk _ _ (suffixed_nonempty p)), Hk, Hkd. exact Hread.
Qed.

(** With no real entry at [p], nothing can be read under [p]. *)
Lemma ReadFile_under_absent fs p :
  p <> "" -> os_Lstat fs p = None ->
  ioutil_ReadFile fs (p +:+ String Separator ShallowEntrySuffix) = None.
Proof.
  intros Hp Habs. unfold ioutil_ReadFile. rewrite namei_sub, (namei_walk _ _ Hp).
  unfold os_Lstat in Habs. destruct (namei fs p) as [k|]; [|reflexivity].
  unfold is_dir. destruct (node_at fs k) as [n|]; [discriminate | reflexivity].
Qed.

(** X13: the test helper [getShallowDirEntry] finds the entry that
    [WriteShallowPlaceholder] stored (the entry written, with the bytes of
    its name and object identifier that are no valid UTF-8 replaced by
    U+FFFD), for a file and for a directory entry alike, when called with the
    path written for (one that does not itself end in the suffix) and no real
    entry is at that path. *)
Theorem getShallowDirEntry_after_write fs p e fs' mp :
  strings_HasSuffix p ShallowEntrySuffix = false ->
  os_Lstat fs' p = None ->
  WriteShallowPlaceholder fs p e = (fs', Ok mp) ->
  getShallowDirEntry fs' p = Some (stored_entry e).
Proof.
  intros Hsuf Habs HW.
  pose proof (HasSuffix_longer p (String Separator "") _ Hsuf) as Hsub.
  pose proof (HasSuffix_longer p ShallowEntrySuffix _ Hsub) as Hdirph.
  unfold getShallowDirEntry, getShallowDirEntry_loop.
  change (strings_HasSuffix p sUBFILE) with
    (strings_HasSuffix p (String Separator "" +:+ ShallowEntrySuffix)).
  change (strings_HasSuffix p dIRPH) with
    (strings_HasSuffix p
       (ShallowEntrySuffix +:+ String Separator "" +:+ ShallowEntrySuffix)).
  rewrite Hsuf, Hsub, Hdirph. cbn [negb].
  destruct (Write_inv _ _ _ _ _ HW) as [(HT & _) | (HT & _)].
  - destruct (Write_File_after _ _ _ _ _ HW HT) as [Hread _].
    rewrite Hread. apply json_Decode_Encode.
  - destruct (Write_Dir_after _ _ _ _ _ HW HT) as [Hdir Hread].
    rewrite (Lstat_dir_ReadFile _ _ Hdir).
    assert (Hunder : ioutil_ReadFile fs' (p +:+ sUBFILE) = None).
    { change (p +:+ sUBFILE) with (p +:+ String Separator ShallowEntrySuffix).
      destruct (String.eqb_spec p "") as [->|Hp].
      - (* the path is the placeholder directory itself, at the root *)
        apply Lstat_dir_ReadFile. exact Hdir.
      - now apply ReadFile_under_absent. }
    rewrite Hunder, Hread. apply json_Decode_Encode.
Qed.

Lemma getShallowDirEntry_after_write_witness :
  getShallowDirEntry
    (fst (WriteShallowPlaceholder restore_root "dest/d1" (sample_entry EntryTypeDirectory)))
    "dest/d1"
  = Some (stored_entry (sample_entry EntryTypeDirectory)).
Proof.
  apply (getShallowDirEntry_after_write restore_root "dest/d1"
           (sample_entry EntryTypeDirectory)
           (fst (WriteShallowPlaceholder restore_root "dest/d1"
                   (sample_entry EntryTypeDirectory)))
           "dest/d1.kopia-entry/.kopia-entry");
    reflexivity.
Defined.

(** X14: for a file placeholder with no real entry beside it, the test
    helper [getShallowInfo] returns the info of the placeholder file: of the
    three paths it tries, that one alone exists. *)
Theorem getShallowInfo_file_placeholder fs p e fs' mp :
  WriteShallowPlaceholder fs p e = (fs', Ok mp) ->
  Type_ e = EntryTypeFile ->
  os_Lstat fs' p = None ->
  getShallowInfo fs' p = Some {| IsDir := false |}.
Proof.
  intros HW HT Habs.
  destruct (Write_File_after _ _ _ _ _ HW HT) as [Hread Hnone].
  unfold getShallowInfo. cbn [map].
  rewrite append_nil_r, Habs, (ReadFile_Lstat _ _ _ Hread), Hnone.
  reflexivity.
Qed.

Lemma getShallowInfo_file_placeholder_witness :
  getShallowInfo
    (fst (WriteShallowPlaceholder restore_root "dest/f1" (sample_entry EntryTypeFile)))
    "dest/f1"
  = Some {| IsDir := false |}.
Proof.
  apply (getShallowInfo_file_placeholder restore_root "dest/f1"
           (sample_entry EntryTypeFile)
           (fst (WriteShallowPlaceholder restore_root "dest/f1"
                   (sample_entry EntryTypeFile)))
           "dest/f1.kopia-entry");
    reflexivity.
Defined.

(** X15: for a directory placeholder written by [WriteShallowPlaceholder] the
    test helper [getShallowInfo] reports a failure and returns nil: the
    placeholder directory and the file in it both exist, so fewer than two of
    its three Lstat calls fail. *)
Theorem getShallowInfo_directory_placeholder fs p e fs' mp :
  WriteShallowPlaceholder fs p e = (fs', Ok mp) ->
  Type_ e = EntryTypeDirectory ->
  getShallowInfo fs' p = None.
Proof.
  intros HW HT.
  destruct (Write_Dir_after _ _ _ _ _ HW HT) as [Hdir Hread].
  unfold getShallowInfo. cbn [map].
  rewrite Hdir, (ReadFile_Lstat _ _ _ Hread).
  destruct (os_Lstat fs' (p +:+ "")); reflexivity.
Qed.

Lemma getShallowInfo_directory_placeholder_witness :
  getShallowInfo
    (fst (WriteShallowPlaceholder restore_root "dest/d1" (sample_entry EntryTypeDirectory)))
    "dest/d1"
  = None.
Proof.
  apply (getShallowInfo_directory_placeholder restore_root "dest/d1"
           (sample_entry EntryTypeDirectory)
           (fst (WriteShallowPlaceholder restore_root "dest/d1"
                   (sample_entry EntryTypeDirectory)))
           "dest/d1.kopia-entry/.kopia-entry");
    reflexivity.
Defined.

End TestHelpers.

(** * session.getConfigBlockID *)

Section ConfigBlock.

Lemma append_inj_l (a x y : string) : a +:+ x = a +:+ y -> x = y.
Proof.
  induction a as [|c a IH]; [easy|].
  rewrite !append_cons. intros [= H]. auto.
Qed.

Lemma append_inj_r (b x y : string) : x +:+ b = y +:+ b -> x = y.
Proof.
  revert y. induction x as [|c x IH]; intros [|d y] H.
  - reflexivity.
  - apply (f_equal String.length) in H.
    rewrite append_nil_l, append_cons in H. simpl in H.
    rewrite length_append in H. lia.
  - apply (f_equal String.length) in H.
    rewrite append_nil_l, append_cons in H. simpl in H.
    rewrite length_append in H. lia.
  - rewrite !append_cons in H. injection H as -> H. f_equal. auto.
Qed.

(** X16: [getConfigBlockID] keeps sessions apart: two sessions whose
    credentials differ in the user name, or of which one alone has
    credentials, get different configuration block ids. *)
Theorem getConfigBlockID_separates {Credentials : Type}
    (Username : Credentials -> string) (a b : option Credentials) :
  option_map Username a <> option_map Username b ->
  getConfigBlockID Username a <> getConfigBlockID Username b.
Proof.
  intros Hne E. apply Hne. clear Hne.
  destruct a as [a|], b as [b|]; simpl in *.
  - apply append_inj_l, append_inj_r in E. now rewrite E.
  - apply (f_equal String.length) in E. rewrite !length_append in E.
    simpl in E. lia.
  - apply (f_equal String.length) in E. rewrite !length_append in E.
    simpl in E. lia.
  - reflexivity.
Qed.

Lemma getConfigBlockID_separates_witness :
  getConfigBlockID (fun u : string => u) (Some "alice")
  <> getConfigBlockID (fun u : string => u) (Some "config.json.users").
Proof.
  apply (getConfigBlockID_separates (fun u : string => u)
           (Some "alice") (Some "config.json.users")).
  simpl. discriminate.
Defined.

End ConfigBlock.
